(** * AIDivideMovie: the video splitting service

    A shallow embedding of [src/services/video_splitter.py] (class
    [VideoSplitter]) and the properties of its segment extraction, timecode
    arithmetic, cut loop and pipeline.

    Conventions of the embedding.
    - A Python [str] is a list of code points.  The model covers the code
      points below 256 (Latin-1), one [ascii] each; the character tables
      ([str.isspace], [str.lower], the regular expression classes [\s] and
      [\w], the digits of [int()]) are CPython's tables for that range.
    - A Python number is [PyInt z] (unbounded [int]) or [PyFloat z], the
      double whose value is the integer [z]: every float of this program is
      [0.0] or the conversion of an [int].
    - Code that can raise returns a sum whose left side is the exception.
    - The collaborators outside the file (file system, clock, the Gemini
      client, the ffmpeg process, the CSV writer) are the fields of the class
      [Collaborators]; every call to one of them is recorded in a trace. *)

From Stdlib Require Import Ascii String.
From Stdlib Require Import List ZArith NArith Bool Lia Arith.
Import ListNotations.

(* ================================================================== *)
(** * Python strings *)
(* ================================================================== *)

Module PyStr.

Definition str := list ascii.

(** String literals of the source. *)
Definition lit (s : string) : str := list_ascii_of_string s.

Definition LF : ascii := "010"%char.

Definition code (c : ascii) : N := N_of_ascii c.

(** [str.isspace] on one character, which is also what [str.strip] removes and
    what [\s] matches: TAB..CR, FS..US, space, NEL and NBSP. *)
Definition isspace (c : ascii) : bool :=
  let n := code c in
  ((9 <=? n) && (n <=? 13) || (28 <=? n) && (n <=? 32) || (n =? 133) || (n =? 160))%N.

(** The decimal digits accepted by [int()]. *)
Definition isdigit (c : ascii) : bool :=
  let n := code c in ((48 <=? n) && (n <=? 57))%N.

(** [\w]: alphanumeric characters and the underscore. *)
Definition isword (c : ascii) : bool :=
  let n := code c in
  ((48 <=? n) && (n <=? 57) || (65 <=? n) && (n <=? 90) || (n =? 95)
   || (97 <=? n) && (n <=? 122)
   || (n =? 170) || (n =? 178) || (n =? 179) || (n =? 181) || (n =? 185)
   || (n =? 186) || (188 <=? n) && (n <=? 190)
   || (192 <=? n) && (n <=? 214) || (216 <=? n) && (n <=? 246)
   || (248 <=? n))%N.

(** [str.lower] on one character: A..Z and the Latin-1 capitals move up by 32. *)
Definition lower_char (c : ascii) : ascii :=
  let n := code c in
  if ((65 <=? n) && (n <=? 90) || (192 <=? n) && (n <=? 214)
      || (216 <=? n) && (n <=? 222))%N
  then ascii_of_N (n + 32) else c.

Definition lower (s : str) : str := map lower_char s.

Definition is_empty (s : str) : bool :=
  match s with [] => true | _ :: _ => false end.

(** Truth value of a string: [if s] holds for the non-empty ones. *)
Definition truthy (s : str) : bool := negb (is_empty s).

Fixpoint lstrip (s : str) : str :=
  match s with
  | [] => []
  | c :: t => if isspace c then lstrip t else s
  end.

Fixpoint rstrip (s : str) : str :=
  match s with
  | [] => []
  | c :: t =>
      let t' := rstrip t in
      if isspace c && is_empty t' then [] else c :: t'
  end.

(** [s.strip()] *)
Definition strip (s : str) : str := lstrip (rstrip s).

(** [s.split(sep)] for a one-character separator: never the empty list. *)
Fixpoint split (sep : ascii) (s : str) : list str :=
  match s with
  | [] => [[]]
  | c :: t =>
      if Ascii.eqb c sep then [] :: split sep t
      else match split sep t with
           | [] => [[c]]
           | f :: fs => (c :: f) :: fs
           end
  end.

(** [sep.join(parts)] for a one-character separator. *)
Fixpoint join (sep : ascii) (parts : list str) : str :=
  match parts with
  | [] => []
  | [p] => p
  | p :: rest => p ++ sep :: join sep rest
  end.

(** [s.startswith(p)] *)
Fixpoint startswith (p s : str) : bool :=
  match p, s with
  | [], _ => true
  | _ :: _, [] => false
  | a :: p', b :: s' => Ascii.eqb a b && startswith p' s'
  end.

(** [p in s] *)
Fixpoint contains (p s : str) : bool :=
  startswith p s ||
  match s with
  | [] => false
  | _ :: t => contains p t
  end.

End PyStr.
Import PyStr.

(* ================================================================== *)
(** * The fenced block pattern *)
(* ================================================================== *)

(** [re.search(r'```csv\s*\n(.*?)\n```', response, re.DOTALL)], as the
    backtracking matcher runs this pattern. *)
Module Re.

Definition fence_open : str := lit "```csv".
Definition fence_close : str := LF :: lit "```".

(** [(.*?)] followed by the closing fence: the lazy group takes the shortest
    text after which the closing fence matches; with DOTALL the dot matches
    every character. *)
Fixpoint lazy_group (s : str) : option str :=
  if startswith fence_close s then Some []
  else match s with
       | [] => None
       | c :: t => option_map (cons c) (lazy_group t)
       end.

(** The pattern after the opening fence.  The greedy [\s*] first takes the
    character, and gives it back to [\n] only when the rest does not match. *)
Fixpoint after_open (s : str) : option str :=
  match s with
  | [] => None
  | c :: t =>
      if isspace c then
        match after_open t with
        | Some g => Some g
        | None => if Ascii.eqb c LF then lazy_group t else None
        end
      else None
  end.

Definition match_here (s : str) : option str :=
  if startswith fence_open s then after_open (skipn (length fence_open) s)
  else None.

(** [re.search]: the match at the leftmost position that has one; the result
    is [group(1)]. *)
Fixpoint search_csv_block (s : str) : option str :=
  match match_here s with
  | Some g => Some g
  | None => match s with
            | [] => None
            | _ :: t => search_csv_block t
            end
  end.

End Re.

(* ================================================================== *)
(** * Segment extraction: [_parse_csv_response] *)
(* ================================================================== *)

(** The exceptions of the program (all of them subclasses of [Exception]).
    A message built by an f-string around [str(e)] keeps its cause. *)
Inductive Exn : Type :=
| IndexError
| ValueError
| OverflowError
| Raised (name : str)
| GeminiAPIError (m : Message)
| VideoSplitterError (m : Message)
with Message : Type :=
| InputNotFound (path : str)
| NoEventDetected
| PromptNotFound
| EmptyResponse
| AnalysisFailed (cause : Exn)
| AnalysisError (cause : Exn)
| SplitFailed (cause : Exn).

(** The dict with the keys ['event_id'], ['start_time'], ['end_time']. *)
Record Segment : Type := mkSegment {
  event_id : str;
  start_time : str;
  end_time : str
}.

Definition header_tokens : str := lit "event_id,start_time,end_time".

Definition COMMA : ascii := ","%char.

(** [parts[i]] *)
Definition index {A : Type} (l : list A) (i : nat) : Exn + A :=
  match nth_error l i with
  | Some x => inr x
  | None => inl IndexError
  end.

(** The [for line in lines] loop of the fallback, with its two variables
    [in_csv] and [csv_lines]; the result is [csv_lines] when the loop ends or
    breaks. *)
Fixpoint scan_lines (lines : list str) (in_csv : bool) (csv_lines : list str)
  : list str :=
  match lines with
  | [] => csv_lines
  | raw :: rest =>
      let line := strip raw in
      if contains header_tokens (lower line) then
        scan_lines rest true (csv_lines ++ [line])
      else if in_csv && contains [COMMA] line
                     && (3 <=? length (split COMMA line)) then
        scan_lines rest in_csv (csv_lines ++ [line])
      else if in_csv && is_empty line then
        scan_lines rest in_csv csv_lines
      else if in_csv then
        csv_lines
      else
        scan_lines rest in_csv csv_lines
  end.

(** The [else] branch of [if csv_match]. *)
Definition fallback_content (response : str) : str :=
  let lines := split LF (strip response) in
  join LF (scan_lines lines false []).

(** [csv_content], from the fenced block or from the fallback. *)
Definition csv_content (response : str) : str :=
  match Re.search_csv_block response with
  | Some g => strip g
  | None => fallback_content response
  end.

(** The [for line in lines[1:]] loop.  An exception leaves the loop with the
    rows appended so far, which is what the handler returns. *)
Fixpoint parse_rows (lines : list str) (segments : list Segment)
  : (Exn * list Segment) + list Segment :=
  match lines with
  | [] => inr segments
  | line :: rest =>
      let parts := split COMMA (strip line) in
      if 3 <=? length parts then
        match index parts 0, index parts 1, index parts 2 with
        | inr p0, inr p1, inr p2 =>
            let event_id := strip p0 in
            let start_time := strip p1 in
            let end_time := strip p2 in
            if truthy event_id && truthy start_time && truthy end_time then
              parse_rows rest (segments ++ [mkSegment event_id start_time end_time])
            else parse_rows rest segments
        | inl e, _, _ | _, inl e, _ | _, _, inl e => inl (e, segments)
        end
      else parse_rows rest segments
  end.

(** The body of the [try] of [_parse_csv_response]. *)
Definition parse_csv_body (response : str)
  : (Exn * list Segment) + list Segment :=
  let segments := [] in
  let csv_content := csv_content response in
  if negb (truthy csv_content) then inr segments
  else
    let lines := split LF (strip csv_content) in
    if length lines <? 2 then inr segments
    else parse_rows (tl lines) segments.

(** [_parse_csv_response]: the handler returns [segments] as it is. *)
Definition _parse_csv_response (response : str) : list Segment :=
  match parse_csv_body response with
  | inr segments => segments
  | inl (_, segments) => segments
  end.

(** ** The extractor as the specification words it *)

(** A line is table-shaped when it contains a comma and splits into at least
    three comma-separated fields. *)
Definition comma_shaped (line : str) : bool :=
  contains [COMMA] line && (3 <=? length (split COMMA line)).

(** A line contains the header tokens, whatever the case of its letters. *)
Definition is_header_line (line : str) : bool :=
  contains header_tokens (lower line).

(** Capture after the header, over trimmed lines: blank lines are skipped,
    table-shaped lines are captured, the first other line stops the capture. *)
Fixpoint capture_rows (lines : list str) : list str :=
  match lines with
  | [] => []
  | l :: rest =>
      if is_empty l then capture_rows rest
      else if comma_shaped l then l :: capture_rows rest
      else []
  end.

(** Lines before the header line are ignored; the header line is captured. *)
Fixpoint capture_table (lines : list str) : list str :=
  match lines with
  | [] => []
  | l :: rest =>
      if is_header_line l then l :: capture_rows rest
      else capture_table rest
  end.

(** The longest prefix of lines that satisfy [p]. *)
Fixpoint take_while {A : Type} (p : A -> bool) (l : list A) : list A :=
  match l with
  | [] => []
  | x :: t => if p x then x :: take_while p t else []
  end.

(** The record of one table row, by the three rules of the specification:
    at least three fields, the first three trimmed, none of them empty. *)
Definition row_record (line : str) : option Segment :=
  match split COMMA line with
  | f0 :: f1 :: f2 :: _ =>
      if is_empty (strip f0) || is_empty (strip f1) || is_empty (strip f2)
      then None
      else Some (mkSegment (strip f0) (strip f1) (strip f2))
  | _ => None
  end.

Definition valid_row (line : str) : bool :=
  match row_record line with Some _ => true | None => false end.

(** A line of a fenced table: no line feed inside, and not the start of a
    closing fence. *)
Definition table_line (line : str) : bool :=
  negb (existsb (Ascii.eqb LF) line) && negb (startswith (lit "```") line).

(** A response with a well-formed fenced table: text without back quotes,
    the opening fence and white space up to the end of its line, a header
    line that is not blank, the rows, the closing fence, any text. *)
Definition fenced_response (pre ws header : str) (rows : list str) (post : str)
  : str :=
  pre ++ Re.fence_open ++ ws ++ [LF] ++ join LF (header :: rows)
      ++ Re.fence_close ++ post.

Definition is_nil {A : Type} (l : list A) : bool :=
  match l with [] => true | _ :: _ => false end.

Fixpoint filter_map {A B : Type} (f : A -> option B) (l : list A) : list B :=
  match l with
  | [] => []
  | x :: t => match f x with
              | Some y => y :: filter_map f t
              | None => filter_map f t
              end
  end.

(* ================================================================== *)
(** * Numbers *)
(* ================================================================== *)

(** What [_time_to_seconds] returns: the [int] of the two formulas, or the
    float [0.0] of its handler. *)
Inductive seconds : Type :=
| Seconds (z : Z)
| Fallback.

(** An [int], or the float whose value is the integer [z]. *)
Inductive pynum : Type :=
| PyInt (z : Z)
| PyFloat (z : Z).

Definition seconds_value (s : seconds) : Z :=
  match s with Seconds z => z | Fallback => 0 end.

Definition pynum_value (n : pynum) : Z :=
  match n with PyInt z => z | PyFloat z => z end.

(** [n <= 0] *)
Definition pynum_le0 (n : pynum) : bool := (pynum_value n <=? 0)%Z.

(** [float(z)]: the nearest double, ties to the even significand of 53 bits;
    [OverflowError] when that is 2^1024 or more. *)
Definition float_of_int (z : Z) : Exn + Z :=
  let a := Z.abs z in
  if (a <? 2 ^ 53)%Z then inr z
  else
    let sh := (Z.log2 a - 52)%Z in
    let q := Z.shiftr a sh in
    let r := (a - Z.shiftl q sh)%Z in
    let half := (2 ^ (sh - 1))%Z in
    let q' := if (half <? r)%Z || ((r =? half)%Z && Z.odd q)
              then (q + 1)%Z else q in
    let v := Z.shiftl q' sh in
    if (2 ^ 1024 <=? v)%Z then inl OverflowError
    else inr (Z.sgn z * v)%Z.

(** [end_seconds - start_seconds]: two ints subtract exactly; a float operand
    converts the other one, and one of the two floats is always [0.0]. *)
Definition seconds_sub (a b : seconds) : Exn + pynum :=
  match a, b with
  | Seconds x, Seconds y => inr (PyInt (x - y))
  | Seconds x, Fallback =>
      match float_of_int x with
      | inr v => inr (PyFloat v)
      | inl e => inl e
      end
  | Fallback, Seconds y =>
      match float_of_int y with
      | inr v => inr (PyFloat (- v))
      | inl e => inl e
      end
  | Fallback, Fallback => inr (PyFloat 0)
  end.

(* ================================================================== *)
(** * [int()] on a string *)
(* ================================================================== *)

Module PyInt.

(** The limit of [sys.get_int_max_str_digits()], at its default. *)
Definition int_max_str_digits : nat := 4300.

(** The white space [int()] accepts around the number. *)
Definition int_space (c : ascii) : bool :=
  let n := code c in
  ((9 <=? n) && (n <=? 13) || (n =? 32) || (n =? 133) || (n =? 160))%N.

Fixpoint skip_space (s : str) : str :=
  match s with
  | [] => []
  | c :: t => if int_space c then skip_space t else s
  end.

Fixpoint drop_trailing_space (s : str) : str :=
  match s with
  | [] => []
  | c :: t =>
      let t' := drop_trailing_space t in
      if int_space c && is_empty t' then [] else c :: t'
  end.

Definition digit_value (c : ascii) : Z := Z.of_N (code c) - 48.

Definition digits_value (ds : str) : Z :=
  fold_left (fun acc c => (10 * acc + digit_value c)%Z) ds 0%Z.

(** A group of digits between underscores: not empty, digits only. *)
Definition digit_group (g : str) : bool :=
  negb (is_empty g) && forallb isdigit g.

(** The digits of a literal, underscores removed; [None] when an underscore
    is not between two digits or a character is not a digit. *)
Definition literal_digits (body : str) : option str :=
  let groups := split "_"%char body in
  if forallb digit_group groups then Some (concat groups) else None.

(** [int(s)]: white space, an optional sign, digits with single underscores
    between them, white space. *)
Definition int (s : str) : Exn + Z :=
  let s1 := drop_trailing_space (skip_space s) in
  let '(sign, body) :=
    match s1 with
    | c :: t => if Ascii.eqb c "-"%char then ((-1)%Z, t)
                else if Ascii.eqb c "+"%char then (1%Z, t)
                else (1%Z, s1)
    | [] => (1%Z, s1)
    end in
  match literal_digits body with
  | Some ds =>
      if int_max_str_digits <? length ds then inl ValueError
      else inr (sign * digits_value ds)%Z
  | None => inl ValueError
  end.

End PyInt.

(* ================================================================== *)
(** * Timecodes: [_time_to_seconds] *)
(* ================================================================== *)

Definition COLON : ascii := ":"%char.

(** The body of the [try]: the field count selects the formula, any failure
    of [int()] and any other field count is a [ValueError]. *)
Definition time_to_seconds_body (time_str : str) : Exn + Z :=
  let time_str := strip time_str in
  let parts := split COLON time_str in
  match parts with
  | [p0; p1] =>
      match PyInt.int p0 with
      | inl e => inl e
      | inr minutes =>
          match PyInt.int p1 with
          | inl e => inl e
          | inr seconds => inr (minutes * 60 + seconds)%Z
          end
      end
  | [p0; p1; p2] =>
      match PyInt.int p0 with
      | inl e => inl e
      | inr hours =>
          match PyInt.int p1 with
          | inl e => inl e
          | inr minutes =>
              match PyInt.int p2 with
              | inl e => inl e
              | inr seconds => inr (hours * 3600 + minutes * 60 + seconds)%Z
              end
          end
      end
  | _ => inl ValueError
  end.

(** [_time_to_seconds]: [except (ValueError, TypeError)] returns [0.0]; any
    other exception would leave the function. *)
Definition _time_to_seconds (time_str : str) : Exn + seconds :=
  match time_to_seconds_body time_str with
  | inr z => inr (Seconds z)
  | inl ValueError => inr Fallback
  | inl e => inl e
  end.

(* ================================================================== *)
(** * The collaborators and the effects *)
(* ================================================================== *)

(** [datetime.now()] *)
Record datetime : Type := mkDatetime {
  year : nat; month : nat; day : nat;
  hour : nat; minute : nat; second : nat
}.

(** The ffmpeg command line
    [[ffmpeg, '-i', input, '-ss', str(start), '-t', str(duration), '-c',
      'copy', '-avoid_negative_ts', 'make_zero', output, '-y']],
    by its variable parts. *)
Record Cmd : Type := mkCmd {
  cmd_program : str;
  cmd_input : str;
  cmd_ss : seconds;
  cmd_t : pynum;
  cmd_output : str
}.

(** One call to a collaborator that acts on the world. *)
Inductive Event : Type :=
| EvMkdir (dir : str)
| EvAnalyze (video prompt : str)
| EvCut (cmd : Cmd) (outcome : Exn + Z)
| EvWriteCsv (path : str) (rows : list Segment).

Class Collaborators (World : Type) : Type := {
  (** [Path(p).exists()] *)
  path_exists : World -> str -> bool;
  (** [Path(d).mkdir(parents=True, exist_ok=True)] *)
  mkdir : World -> str -> (Exn + unit) * World;
  (** [str(Path(p))] *)
  path_str : str -> str;
  (** [str(Path(d) / name)] *)
  path_join : str -> str -> str;
  (** [self.config.output.default_dir] *)
  default_dir : str;
  (** [self.ffmpeg_path] *)
  ffmpeg_path : str;
  (** [prompt_manager.get_prompt("video_segmentation")] *)
  get_prompt : World -> str;
  (** [upload_file], [generate_content] and the clean-up of the upload: the
      text of the response, empty when there is none *)
  gemini_generate : World -> str -> str -> (Exn + str) * World;
  (** [subprocess.run(cmd, ...)]: the return code of the process *)
  subprocess_run : World -> Cmd -> (Exn + Z) * World;
  (** [datetime.now()] *)
  now : World -> datetime;
  (** [open(csv_path, 'w')] and the [csv.DictWriter] calls *)
  write_csv : World -> str -> list Segment -> (Exn + unit) * World
}.

(** The state of a run: the world and the calls made so far. *)
Record State (World : Type) : Type := mkState {
  world : World;
  trace : list Event
}.

Arguments mkState {World} world trace.
Arguments world {World} s.
Arguments trace {World} s.

(** Computations that act on the state and may raise. *)
Definition M (World A : Type) : Type := State World -> (Exn + A) * State World.

Definition ret {World A : Type} (a : A) : M World A := fun st => (inr a, st).

Definition raise {World A : Type} (e : Exn) : M World A := fun st => (inl e, st).

Definition bind {World A B : Type} (m : M World A) (k : A -> M World B)
  : M World B :=
  fun st =>
    match m st with
    | (inr a, st') => k a st'
    | (inl e, st') => (inl e, st')
    end.

(** A pure computation that may raise. *)
Definition lift {World A : Type} (r : Exn + A) : M World A := fun st => (r, st).

(** [try: m except Exception as e: h e] *)
Definition try_except {World A : Type} (m : M World A) (h : Exn -> M World A)
  : M World A :=
  fun st =>
    match m st with
    | (inr a, st') => (inr a, st')
    | (inl e, st') => h e st'
    end.

Declare Scope py_scope.
Delimit Scope py_scope with py.
Notation "x <- c ;; k" := (bind c (fun x => k))
  (at level 61, c at next level, right associativity) : py_scope.
Notation "c ;;; k" := (bind c (fun _ => k))
  (at level 61, right associativity) : py_scope.

(** The dict returned by [split_video]. *)
Record Result : Type := mkResult {
  input_file : str;
  output_directory : str;
  segments_count : nat;
  split_files : list str;
  csv_file : str;
  segments : list Segment
}.

(** ** Formatting the date *)

Definition digit_char (d : nat) : ascii := ascii_of_nat (48 + d).

Fixpoint decimal_digits (fuel n : nat) (acc : str) : str :=
  match fuel with
  | O => acc
  | S fuel' =>
      let acc' := digit_char (n mod 10) :: acc in
      if n / 10 =? 0 then acc' else decimal_digits fuel' (n / 10) acc'
  end.

(** [%Y]: the year in decimal. *)
Definition decimal (n : nat) : str := decimal_digits (S n) n [].

(** [%m], [%d], [%H], [%M], [%S]: two digits. *)
Definition two_digits (n : nat) : str :=
  [digit_char (n / 10 mod 10); digit_char (n mod 10)].

(** [strftime("%Y%m%d")] *)
Definition strftime_Ymd (t : datetime) : str :=
  decimal (year t) ++ two_digits (month t) ++ two_digits (day t).

(** [strftime("%Y%m%d_%H%M%S")] *)
Definition strftime_Ymd_HMS (t : datetime) : str :=
  strftime_Ymd t ++ lit "_"
  ++ two_digits (hour t) ++ two_digits (minute t) ++ two_digits (second t).

(** ** The file name of a clip *)

(** The characters the class [[^\w\-_.]] does not match. *)
Definition safe_char (c : ascii) : bool :=
  isword c || Ascii.eqb c "-"%char || Ascii.eqb c "_"%char
  || Ascii.eqb c "."%char.

(** [re.sub(r'[^\w\-_.]', '_', event_id)] *)
Definition sanitize (event_id : str) : str :=
  map (fun c => if safe_char c then c else "_"%char) event_id.

Definition clip_extension : str := lit "mp4".

(** [f"{safe_event_id}_{today}.mp4"] *)
Definition output_filename (event_id today : str) : str :=
  sanitize event_id ++ lit "_" ++ today ++ lit "." ++ clip_extension.

(* ================================================================== *)
(** * The service *)
(* ================================================================== *)

Section Service.

Context {World : Type} `{C : Collaborators World}.

Local Open Scope py_scope.

(** [subprocess.run(cmd, capture_output=True, text=True, encoding='utf-8')] *)
Definition run_process (cmd : Cmd) : M World Z :=
  fun st =>
    let (r, w) := subprocess_run (world st) cmd in
    (r, mkState w (trace st ++ [EvCut cmd r])).

(** The body of the [try] of one iteration of the cut loop; the value is
    [split_files] after the iteration. *)
Definition cut_body (input_file output_path today : str)
  (segment : Segment) (split_files : list str) : M World (list str) :=
  let event_id := event_id segment in
  let start_time := start_time segment in
  let end_time := end_time segment in
  start_seconds <- lift (_time_to_seconds start_time) ;;
  end_seconds <- lift (_time_to_seconds end_time) ;;
  duration <- lift (seconds_sub end_seconds start_seconds) ;;
  if pynum_le0 duration then ret split_files
  else
    let output_filename := output_filename event_id today in
    let output_file_path := path_join output_path output_filename in
    let cmd := mkCmd ffmpeg_path input_file start_seconds duration
                     output_file_path in
    returncode <- run_process cmd ;;
    if (returncode =? 0)%Z then ret (split_files ++ [output_file_path])
    else ret split_files.

(** [for i, segment in enumerate(segments)]: an exception of the body is
    caught and the loop goes on with the next segment. *)
Fixpoint cut_loop (input_file output_path today : str)
  (segments : list Segment) (split_files : list str) : M World (list str) :=
  match segments with
  | [] => ret split_files
  | segment :: rest =>
      split_files' <-
        try_except (cut_body input_file output_path today segment split_files)
                   (fun _ => ret split_files) ;;
      cut_loop input_file output_path today rest split_files'
  end.

(** [_split_video_with_ffmpeg] *)
Definition _split_video_with_ffmpeg (input_path : str)
  (segments : list Segment) (output_dir : str) : M World (list str) :=
  fun st =>
    let split_files := [] in
    let input_file := path_str input_path in
    let output_path := path_str output_dir in
    let today := strftime_Ymd (now (world st)) in
    cut_loop input_file output_path today segments split_files st.

(** [_save_segments_to_csv]: every exception of the body is swallowed and
    the empty string is returned. *)
Definition _save_segments_to_csv (segments : list Segment) (output_dir : str)
  : M World str :=
  fun st =>
    let timestamp := strftime_Ymd_HMS (now (world st)) in
    let csv_filename := lit "video_segments_" ++ timestamp ++ lit ".csv" in
    let csv_path := path_join output_dir csv_filename in
    let (r, w) := write_csv (world st) csv_path segments in
    let st' := mkState w (trace st ++ [EvWriteCsv csv_path segments]) in
    match r with
    | inr _ => (inr csv_path, st')
    | inl _ => (inr [], st')
    end.

(** [_analyze_video_with_custom_prompt]: whatever is raised, the empty
    response included, leaves as a [GeminiAPIError] around it. *)
Definition _analyze_video_with_custom_prompt (video_path prompt : str)
  : M World str :=
  try_except
    (response <- (fun st =>
        let (r, w) := gemini_generate (world st) video_path prompt in
        (r, mkState w (trace st ++ [EvAnalyze video_path prompt]))) ;;
     if truthy response then ret response
     else raise (GeminiAPIError EmptyResponse))
    (fun e => raise (GeminiAPIError (AnalysisFailed e))).

(** [_analyze_video] *)
Definition _analyze_video (video_path : str) : M World (list Segment) :=
  try_except
    (prompt <- (fun st => (inr (get_prompt (world st)), st)) ;;
     if negb (truthy prompt) then raise (VideoSplitterError PromptNotFound)
     else
       response <- _analyze_video_with_custom_prompt video_path prompt ;;
       let segments := _parse_csv_response response in
       ret segments)
    (fun e =>
       match e with
       | GeminiAPIError _ => raise (VideoSplitterError (AnalysisFailed e))
       | _ => raise (VideoSplitterError (AnalysisError e))
       end).

(** [split_video] *)
Definition split_video (input_video_path : str) (output_dir : option str)
  : M World Result :=
  try_except
    (let input_path := input_video_path in
     found <- (fun st => (inr (path_exists (world st) input_path), st)) ;;
     if negb found then
       raise (VideoSplitterError (InputNotFound input_video_path))
     else
       let output_dir :=
         match output_dir with
         | None => default_dir
         | Some d => d
         end in
       let output_path := output_dir in
       (fun st =>
          let (r, w) := mkdir (world st) output_path in
          (r, mkState w (trace st ++ [EvMkdir output_path]))) ;;;
       event_segments <- _analyze_video (path_str input_path) ;;
       if is_nil event_segments then
         raise (VideoSplitterError NoEventDetected)
       else
         split_files <- _split_video_with_ffmpeg (path_str input_path)
                          event_segments (path_str output_path) ;;
         csv_file <- _save_segments_to_csv event_segments
                       (path_str output_path) ;;
         ret (mkResult (path_str input_path) (path_str output_path)
                       (length event_segments) split_files csv_file
                       event_segments))
    (fun e => raise (VideoSplitterError (SplitFailed e))).

End Service.

(* ================================================================== *)
(** * Auxiliary definitions *)
(* ================================================================== *)

(** The number of occurrences of a character. *)
Definition count (c : ascii) (s : str) : nat := count_occ ascii_dec s c.

(** A function applied to the last element of a list. *)
Fixpoint map_last {A : Type} (g : A -> A) (l : list A) : list A :=
  match l with
  | [] => []
  | [x] => [g x]
  | x :: t => x :: map_last g t
  end.

(** The string has a character that is not white space. *)
Definition has_text (s : str) : bool := existsb (fun c => negb (isspace c)) s.

Definition BACKQUOTE : ascii := "`"%char.

Definition no_backquote (s : str) : bool :=
  negb (existsb (Ascii.eqb BACKQUOTE) s).

(** A function applied to the first element of a list. *)
Definition map_first {A : Type} (g : A -> A) (l : list A) : list A :=
  match l with
  | [] => []
  | x :: t => g x :: t
  end.

(** A field of decimal digits [int()] accepts as it is: not empty, digits
    only, within the limit on the number of digits. *)
Definition plain_digits (ds : str) : bool :=
  negb (is_empty ds) && forallb isdigit ds
  && (length ds <=? PyInt.int_max_str_digits).

(** The seconds of a timecode from the values of its fields. *)
Definition timecode_value (fields : list Z) : Z :=
  match fields with
  | [minutes; seconds] => minutes * 60 + seconds
  | [hours; minutes; seconds] => hours * 3600 + minutes * 60 + seconds
  | _ => 0
  end.

(** ** The cut planner and the cutter, as the specification separates them *)

(** The duration the loop computes for a segment, or the exception of the
    subtraction. *)
Definition duration_of (segment : Segment) : Exn + pynum :=
  match _time_to_seconds (start_time segment) with
  | inl e => inl e
  | inr start_seconds =>
      match _time_to_seconds (end_time segment) with
      | inl e => inl e
      | inr end_seconds => seconds_sub end_seconds start_seconds
      end
  end.

(** The duration was computed and is greater than zero. *)
Definition positive_duration (segment : Segment) : bool :=
  match duration_of segment with
  | inr d => negb (pynum_le0 d)
  | inl _ => false
  end.

(** The duration was computed and is zero or less. *)
Definition nonpositive_duration (segment : Segment) : bool :=
  match duration_of segment with
  | inr d => pynum_le0 d
  | inl _ => false
  end.

(** The cut succeeded: the process returned the code zero. *)
Definition succeeded (outcome : Exn + Z) : bool :=
  match outcome with
  | inr 0%Z => true
  | _ => false
  end.

Definition cut_event (job : Cmd * (Exn + Z)) : Event :=
  EvCut (fst job) (snd job).

(** The commands given to the cutter, from the trace of a run. *)
Fixpoint cut_commands (tr : list Event) : list Cmd :=
  match tr with
  | [] => []
  | EvCut cmd _ :: rest => cmd :: cut_commands rest
  | _ :: rest => cut_commands rest
  end.

(** The file name the specification gives to the clip of an event. *)
Definition clip_name (event_id today : str) : str :=
  map (fun c => if isword c || Ascii.eqb c "-"%char || Ascii.eqb c "_"%char
                   || Ascii.eqb c "."%char
                then c else "_"%char) event_id
  ++ lit "_" ++ today ++ lit ".mp4".

Section Planner.

Context {World : Type} `{C : Collaborators World}.

(** The job of a segment: none unless the duration is positive. *)
Definition job_of (input_file output_path today : str) (segment : Segment)
  : option Cmd :=
  match _time_to_seconds (start_time segment),
        _time_to_seconds (end_time segment) with
  | inr start_seconds, inr end_seconds =>
      match seconds_sub end_seconds start_seconds with
      | inr duration =>
          if pynum_le0 duration then None
          else Some (mkCmd ffmpeg_path input_file start_seconds duration
                       (path_join output_path
                          (output_filename (event_id segment) today)))
      | inl _ => None
      end
  | _, _ => None
  end.

Definition plan (input_file output_path today : str)
  (segments : list Segment) : list Cmd :=
  filter_map (job_of input_file output_path today) segments.

(** The outcomes of the cutter on the jobs, one after the other, and the
    world they leave. *)
Fixpoint outcomes (w : World) (jobs : list Cmd) : list (Exn + Z) * World :=
  match jobs with
  | [] => ([], w)
  | job :: rest =>
      let (r, w') := subprocess_run w job in
      let (rs, w'') := outcomes w' rest in
      (r :: rs, w'')
  end.

(** The paths of the jobs whose cut succeeded. *)
Definition produced (jobs : list Cmd) (rs : list (Exn + Z)) : list str :=
  map (fun job => cmd_output (fst job))
      (filter (fun job => succeeded (snd job)) (combine jobs rs)).

End Planner.

(** ** Sample inputs *)

(** [unlines] joins lines of a sample with line feeds. *)
Definition unlines (ls : list string) : str := join LF (map lit ls).

Definition sample_pre : str := lit "Here is the table:" ++ [LF].
Definition sample_header : str := header_tokens.
Definition sample_rows : list str :=
  [lit "ev1,00:00,01:30"; lit "ev2,01:30,01:10"; lit "ev3,02:00,03:45"].
Definition sample_post : str := LF :: lit "Done.".

(** The end-to-end response of the specification, with prose around it. *)
Definition sample_fenced : str :=
  fenced_response sample_pre (lit " ") sample_header sample_rows sample_post.

(** A response without a fence: prose, a stray table-shaped line, the header
    in capitals, rows with a blank line between them, prose, a late row. *)
Definition sample_unfenced : str :=
  unlines ["Segments follow"; "a,b,c"; "Event_ID,Start_Time,End_Time";
           "ev1,00:00,01:30"; ""; " ev2 ,01:30,01:10 "; ",1,2"; "x,y";
           "That is all."; "ev9,1,2"]%string.

Definition sample_prose : str := lit "I could not find any event.".

Definition sample_header_only : str := lit "event_id,start_time,end_time".

(** ** A scripted world *)

(** The paths that exist, the clock, the answer of the analyzer, the answers
    of the next cuts, and whether the manifest can be written. *)
Record Script : Type := mkScript {
  existing : list str;
  clock : datetime;
  answer : Exn + str;
  cuts : list (Exn + Z);
  writable : bool
}.

Definition str_eqb (a b : str) : bool :=
  if list_eq_dec ascii_dec a b then true else false.

#[global] Instance scripted : Collaborators Script := {
  path_exists w p := existsb (str_eqb p) (existing w);
  mkdir w d :=
    (inr tt, mkScript (d :: existing w) (clock w) (answer w) (cuts w)
                      (writable w));
  path_str p := p;
  path_join d name := d ++ lit "/" ++ name;
  default_dir := lit "output";
  ffmpeg_path := lit "ffmpeg";
  get_prompt _ := lit "List the events as CSV.";
  gemini_generate w _ _ := (answer w, w);
  subprocess_run w cmd :=
    match cuts w with
    | [] => (inr 0%Z, w)
    | r :: rest =>
        (r, mkScript (existing w) (clock w) (answer w) rest (writable w))
    end;
  now w := clock w;
  write_csv w path _ :=
    if writable w then
      (inr tt, mkScript (path :: existing w) (clock w) (answer w) (cuts w)
                        (writable w))
    else (inl (Raised (lit "PermissionError")), w)
}.

Definition sample_clock : datetime := mkDatetime 2025 6 1 12 30 5.

(** The input video exists, the analyzer answers the fenced sample, the first
    cut fails with code 1, the second raises, the manifest cannot be
    written. *)
Definition sample_script : Script :=
  mkScript [lit "in.mp4"] sample_clock (inr sample_fenced)
           [inr 1%Z; inl (Raised (lit "FileNotFoundError"))] false.

Definition sample_state : State Script := mkState sample_script [].

(** Four segments: the second is inverted, the third ends at an hour count
    too large for a float while its start is malformed. *)
Definition sample_segments : list Segment :=
  [mkSegment (lit "A/B C") (lit "00:00") (lit "01:30");
   mkSegment (lit "ev2") (lit "01:30") (lit "01:10");
   mkSegment (lit "ev3") (lit "bad")
             (repeat "9"%char 400 ++ lit ":00:00");
   mkSegment (lit "ev4") (lit "02:00") (lit "03:45")].


(** The three records of the fenced sample. *)
Definition sample_records : list Segment :=
  [mkSegment (lit "ev1") (lit "00:00") (lit "01:30");
   mkSegment (lit "ev2") (lit "01:30") (lit "01:10");
   mkSegment (lit "ev3") (lit "02:00") (lit "03:45")].

(** The states of the sample run after the directory is made, after the
    analysis and after the cuts. *)
Definition sample_state1 : State Script :=
  mkState (snd (mkdir sample_script (lit "output"))) [EvMkdir (lit "output")].

Definition sample_state2 : State Script :=
  snd (_analyze_video (lit "in.mp4") sample_state1).

Definition sample_state3 : State Script :=
  snd (_split_video_with_ffmpeg (lit "in.mp4") sample_records (lit "output")
         sample_state2).

(** ** Predicates of the further properties *)

(** A field of a record: not empty, trimmed, without comma or line feed. *)
Definition clean_field (f : str) : Prop :=
  f <> [] /\ strip f = f
  /\ existsb (Ascii.eqb COMMA) f = false
  /\ existsb (Ascii.eqb LF) f = false.

Definition clean_segment (s : Segment) : Prop :=
  clean_field (event_id s) /\ clean_field (start_time s)
  /\ clean_field (end_time s).

(** The responses the pattern of the fenced block matches somewhere: the
    opening fence, white space, a line feed, any text, a line feed and the
    closing fence. *)
Definition has_fenced_block (response : str) : Prop :=
  exists pre ws g post,
    forallb isspace ws = true
    /\ response = pre ++ Re.fence_open ++ ws ++ [LF] ++ g
                     ++ Re.fence_close ++ post.

(** The kinds of events of a trace. *)
Definition is_mkdir (e : Event) : bool :=
  match e with EvMkdir _ => true | _ => false end.

Definition is_analyze (e : Event) : bool :=
  match e with EvAnalyze _ _ => true | _ => false end.

Definition is_cut (e : Event) : bool :=
  match e with EvCut _ _ => true | _ => false end.

Definition is_write (e : Event) : bool :=
  match e with EvWriteCsv _ _ => true | _ => false end.

(** The error every failure of [split_video] is wrapped in. *)
Definition split_failed (cause : Exn) : Exn :=
  VideoSplitterError (SplitFailed cause).

(** The datetimes whose fields have the widths of the format: a year of
    four digits, the other fields of two. *)
Definition four_two_digits (t : datetime) : Prop :=
  1000 <= year t < 10 * 1000 /\ month t < 100 /\ day t < 100
  /\ hour t < 100 /\ minute t < 100 /\ second t < 100.

(** The analyzer answers with prose only. *)
Definition sample_prose_state : State Script :=
  mkState (mkScript [lit "in.mp4"] sample_clock (inr sample_prose) [] true) [].

(** The analyzer raises. *)
Definition sample_down_state : State Script :=
  mkState (mkScript [lit "in.mp4"] sample_clock
             (inl (Raised (lit "ConnectionError"))) [] true) [].

(* ================================================================== *)
(** * The main window: [src/ui/main_window.py] *)
(* ================================================================== *)

(** The labels of the window have code points above 255: a label is a list
    of code points of any size.  Only [==], [+] and [startswith] are used on
    them. *)
Definition ustr : Type := list N.

Definition ustr_eqb (a b : ustr) : bool :=
  if list_eq_dec N.eq_dec a b then true else false.

Fixpoint ustartswith (p s : ustr) : bool :=
  match p, s with
  | [], _ => true
  | _ :: _, [] => false
  | a :: p', b :: s' => (a =? b)%N && ustartswith p' s'
  end.

(** ["."] *)
Definition DOT : N := 46%N.

(** [base_text], the label of a run in progress (three ideographs). *)
Definition base_text : ustr := [20966; 29702; 20013]%N.

(** The label of the idle window. *)
Definition text_idle : ustr := [24453; 27231; 20013]%N.

(** The label of the analysis, which ends with three dots. *)
Definition text_analyzing : ustr :=
  [21205; 30011; 35299; 26512; 20013; 46; 46; 46]%N.

(** What [root.after] is given to call later. *)
Inductive Callback : Type :=
| CbAnimate
| CbSetStatus (text : ustr)
| CbShowInfo (name : str) (segments_count files : nat) (directory : str)
             (csv_name : option str)
| CbShowSplitError (e : Exn)
| CbShowError (e : Exn)
| CbEnableButton.

(** The calls of [messagebox] made at once. *)
Inductive Dialog : Type :=
| DlgSelectFile.

(** The window: the two Tk variables, the state of the execute button, the
    dialogs shown, the calls given to [root.after] with their delays, and
    the number of threads started. *)
Record Ui : Type := mkUi {
  file_path_var : str;
  status_var : ustr;
  execute_enabled : bool;
  dialogs : list Dialog;
  timers : list (nat * Callback);
  threads : nat
}.

Definition set_status (text : ustr) (ui : Ui) : Ui :=
  mkUi (file_path_var ui) text (execute_enabled ui) (dialogs ui) (timers ui)
       (threads ui).

Definition set_enabled (b : bool) (ui : Ui) : Ui :=
  mkUi (file_path_var ui) (status_var ui) b (dialogs ui) (timers ui)
       (threads ui).

(** [self.root.after(ms, callback)] *)
Definition after (ms : nat) (cb : Callback) (ui : Ui) : Ui :=
  mkUi (file_path_var ui) (status_var ui) (execute_enabled ui) (dialogs ui)
       (timers ui ++ [(ms, cb)]) (threads ui).

Definition show (d : Dialog) (ui : Ui) : Ui :=
  mkUi (file_path_var ui) (status_var ui) (execute_enabled ui)
       (dialogs ui ++ [d]) (timers ui) (threads ui).

(** [thread.start()] *)
Definition start_thread (ui : Ui) : Ui :=
  mkUi (file_path_var ui) (status_var ui) (execute_enabled ui) (dialogs ui)
       (timers ui) (S (threads ui)).

(** [_animate_status_label] *)
Definition _animate_status_label (ui : Ui) : Ui :=
  let current_text := status_var ui in
  if ustartswith base_text current_text then
    let new_text :=
      if ustr_eqb current_text base_text then base_text ++ [DOT]
      else if ustr_eqb current_text (base_text ++ [DOT]) then
        base_text ++ [DOT; DOT]
      else if ustr_eqb current_text (base_text ++ [DOT; DOT]) then
        base_text ++ [DOT; DOT; DOT]
      else base_text in
    let ui := set_status new_text ui in
    if ustartswith base_text (status_var ui) then after 500 CbAnimate ui
    else ui
  else ui.

(** [_execute_processing]; the thread it starts runs
    [_process_video_split]. *)
Definition _execute_processing (ui : Ui) : Ui :=
  if negb (truthy (file_path_var ui)) then show DlgSelectFile ui
  else
    let ui := set_enabled false ui in
    let ui := set_status (base_text ++ [DOT; DOT; DOT]) ui in
    let ui := _animate_status_label ui in
    start_thread ui.


Section Worker.

Context {World : Type} `{C : Collaborators World}.

(** The import of the service module, [VideoSplitter()], whose constructor
    calls code outside the file, and [pathlib.Path(p).name]. *)
Variable import_service : World -> (Exn + unit) * World.
Variable new_splitter : World -> (Exn + unit) * World.
Variable path_name : str -> str.



End Worker.


(** ** Line endings *)

Definition CR : ascii := "013"%char.

(** The text with every line feed preceded by a carriage return. *)
Definition crlf (s : str) : str :=
  flat_map (fun c => if Ascii.eqb c LF then [CR; LF] else [c]) s.

(** A function applied to all the elements of a list but the last. *)
Fixpoint map_init {A : Type} (g : A -> A) (l : list A) : list A :=
  match l with
  | [] => []
  | [x] => [x]
  | x :: t => g x :: map_init g t
  end.

(** A captured group of the text with carriage returns. *)
Definition with_cr (g : str) : str := crlf g ++ [CR].

(** The trimmed lines of a trimmed text. *)
Definition trimmed_lines_of (content : str) : list str :=
  map strip (split LF (strip content)).

(* ================================================================== *)
(** * Properties of the string operations *)
(* ================================================================== *)

Section StringFacts.

Lemma eqb_true (a b : ascii) : Ascii.eqb a b = true <-> a = b.
Proof. apply Ascii.eqb_eq. Qed.

Lemma startswith_app (p s : str) : startswith p (p ++ s) = true.
Proof.
  induction p as [|a p IH]; simpl; [reflexivity|].
  now rewrite Ascii.eqb_refl, IH.
Qed.

Lemma startswith_iff (p s : str) :
  startswith p s = true <-> exists t, s = p ++ t.
Proof.
  split.
  - revert s; induction p as [|a p IH]; intros s H.
    + now exists s.
    + destruct s as [|b s]; simpl in H; [discriminate|].
      apply andb_true_iff in H as [Hab Hp].
      apply eqb_true in Hab; subst b.
      destruct (IH _ Hp) as [t ->]. now exists t.
  - intros [t ->]. apply startswith_app.
Qed.

Lemma contains_unfold (p s : str) :
  contains p s =
  startswith p s || match s with [] => false | _ :: t => contains p t end.
Proof. destruct s; reflexivity. Qed.

Lemma contains_iff (p s : str) :
  contains p s = true <-> exists a b, s = a ++ p ++ b.
Proof.
  split.
  - induction s as [|c s IH]; simpl; intros H.
    + rewrite orb_false_r in H. apply startswith_iff in H as [t Ht].
      exists [], t. exact Ht.
    + apply orb_true_iff in H as [H|H].
      * apply startswith_iff in H as [t Ht]. exists [], t. exact Ht.
      * destruct (IH H) as (a & b & ->). now exists (c :: a), b.
  - intros (a & b & ->). induction a as [|c a IH].
    + simpl app. rewrite contains_unfold, startswith_app. reflexivity.
    + simpl app. rewrite contains_unfold, IH. apply orb_true_r.
Qed.

Lemma count_app (c : ascii) (a b : str) :
  count c (a ++ b) = count c a + count c b.
Proof. apply count_occ_app. Qed.

Lemma split_not_nil (c : ascii) (s : str) : split c s <> [].
Proof.
  destruct s as [|a s]; simpl; [discriminate|].
  destruct (Ascii.eqb a c); [discriminate|].
  destruct (split c s); discriminate.
Qed.

Lemma split_length (c : ascii) (s : str) :
  length (split c s) = S (count c s).
Proof.
  induction s as [|a s IH]; [reflexivity|].
  unfold count in *. simpl.
  destruct (Ascii.eqb a c) eqn:E.
  - apply eqb_true in E; subst a.
    destruct (ascii_dec c c); [|congruence]. simpl. now rewrite IH.
  - destruct (ascii_dec a c) as [->|_]; [now rewrite Ascii.eqb_refl in E|].
    destruct (split c s) eqn:Es; [now apply split_not_nil in Es|].
    simpl in *. exact IH.
Qed.

Lemma contains_char (c : ascii) (s : str) :
  contains [c] s = true <-> 0 < count c s.
Proof.
  unfold count. rewrite contains_iff. split.
  - intros (a & b & ->). apply (count_occ_In ascii_dec).
    apply in_or_app. right. now left.
  - intros H. apply (count_occ_In ascii_dec) in H.
    apply in_split in H as (a & b & ->). now exists a, b.
Qed.

Lemma comma_shaped_count (line : str) :
  comma_shaped line = true <-> 2 <= count COMMA line.
Proof.
  unfold comma_shaped. rewrite andb_true_iff, contains_char, split_length.
  rewrite Nat.leb_le. lia.
Qed.

Lemma lower_char_comma (c : ascii) :
  lower_char c = COMMA <-> c = COMMA.
Proof.
  destruct c as [[] [] [] [] [] [] [] []]; vm_compute; split; congruence.
Qed.

Lemma count_lower_comma (s : str) : count COMMA (lower s) = count COMMA s.
Proof.
  unfold count, lower. induction s as [|c s IH]; [reflexivity|].
  simpl. rewrite IH.
  destruct (ascii_dec (lower_char c) COMMA) as [E|E];
    destruct (ascii_dec c COMMA) as [E'|E']; try reflexivity.
  - exfalso. apply E'. now apply lower_char_comma.
  - exfalso. apply E. now apply lower_char_comma.
Qed.

(** A header line is table-shaped and is not empty. *)
Lemma header_line_shape (line : str) :
  is_header_line line = true ->
  comma_shaped line = true /\ is_empty line = false.
Proof.
  unfold is_header_line. intros H.
  assert (Hc : 2 <= count COMMA line).
  { rewrite <- count_lower_comma.
    apply contains_iff in H as (a & b & ->).
    rewrite !count_app.
    assert (count COMMA header_tokens = 2) by reflexivity. lia. }
  split; [now apply comma_shaped_count|].
  destruct line; [simpl in Hc; unfold count in Hc; simpl in Hc; lia|reflexivity].
Qed.

End StringFacts.

Section StripFacts.

Lemma join_split (c : ascii) (s : str) : join c (split c s) = s.
Proof.
  induction s as [|a s IH]; [reflexivity|].
  simpl. destruct (Ascii.eqb a c) eqn:E.
  - apply eqb_true in E; subst a.
    destruct (split c s) eqn:Es; [now apply split_not_nil in Es|].
    simpl. simpl in IH. now rewrite IH.
  - destruct (split c s) as [|f fs] eqn:Es; [now apply split_not_nil in Es|].
    destruct fs; simpl in *; now rewrite IH.
Qed.

Lemma split_single (c : ascii) (s f : str) : split c s = [f] -> f = s.
Proof.
  intros H. rewrite <- (join_split c s), H. reflexivity.
Qed.

Lemma lstrip_idem (s : str) : lstrip (lstrip s) = lstrip s.
Proof.
  induction s as [|a s IH]; [reflexivity|].
  simpl. destruct (isspace a) eqn:E; [exact IH|].
  simpl. now rewrite E.
Qed.

Lemma rstrip_idem (s : str) : rstrip (rstrip s) = rstrip s.
Proof.
  induction s as [|a s IH]; [reflexivity|].
  simpl. destruct (isspace a && is_empty (rstrip s)) eqn:E; [reflexivity|].
  simpl. now rewrite IH, E.
Qed.

Lemma rstrip_lstrip (s : str) : rstrip (lstrip s) = lstrip (rstrip s).
Proof.
  induction s as [|a s IH]; [reflexivity|].
  simpl. destruct (isspace a) eqn:E; simpl.
  - destruct (rstrip s) eqn:Er; simpl.
    + rewrite IH. reflexivity.
    + rewrite E. rewrite IH. reflexivity.
  - rewrite E. simpl. reflexivity.
Qed.

Lemma strip_lstrip (s : str) : strip (lstrip s) = strip s.
Proof. unfold strip. now rewrite rstrip_lstrip, lstrip_idem. Qed.

Lemma strip_rstrip (s : str) : strip (rstrip s) = strip s.
Proof. unfold strip. now rewrite rstrip_idem. Qed.

Lemma strip_idem (s : str) : strip (strip s) = strip s.
Proof. unfold strip at 2. now rewrite strip_lstrip, strip_rstrip. Qed.

Lemma map_last_length {A : Type} (g : A -> A) (l : list A) :
  length (map_last g l) = length l.
Proof.
  induction l as [|x [|y t] IH]; try reflexivity.
  change (S (length (map_last g (y :: t))) = S (length (y :: t))).
  now rewrite IH.
Qed.

Lemma map_last_cons {A : Type} (g : A -> A) (x : A) (l : list A) :
  l <> [] -> map_last g (x :: l) = x :: map_last g l.
Proof. destruct l; [congruence|reflexivity]. Qed.

(** Trimming on the left only touches the first field. *)
Lemma split_lstrip (c : ascii) (s : str) :
  isspace c = false ->
  split c (lstrip s) = map_first lstrip (split c s).
Proof.
  intros Hc. induction s as [|a s IH]; [reflexivity|].
  simpl lstrip. destruct (isspace a) eqn:E.
  - rewrite IH. simpl.
    destruct (Ascii.eqb a c) eqn:Eac.
    { apply eqb_true in Eac. congruence. }
    destruct (split c s) as [|f fs] eqn:Es; [now apply split_not_nil in Es|].
    simpl. now rewrite E.
  - simpl. destruct (Ascii.eqb a c); [reflexivity|].
    destruct (split c s) as [|f fs]; simpl; now rewrite E.
Qed.

(** Trimming on the right only touches the last field. *)
Lemma split_rstrip (c : ascii) (s : str) :
  isspace c = false ->
  split c (rstrip s) = map_last rstrip (split c s).
Proof.
  intros Hc. induction s as [|a s IH]; [reflexivity|].
  simpl rstrip.
  assert (Hsplit : forall t, split c (a :: t) =
            if Ascii.eqb a c then [] :: split c t
            else match split c t with
                 | [] => [[a]] | f :: fs => (a :: f) :: fs end)
    by reflexivity.
  destruct (split c s) as [|f fs] eqn:Es; [now apply split_not_nil in Es|].
  destruct (isspace a && is_empty (rstrip s)) eqn:E.
  - apply andb_true_iff in E as [Ea Er].
    destruct (rstrip s) eqn:Ers; [|discriminate].
    rewrite Hsplit, Es.
    destruct (Ascii.eqb a c) eqn:Eac.
    { apply eqb_true in Eac. congruence. }
    destruct fs as [|f' fs].
    + simpl in IH. injection IH as IH. simpl. rewrite Ea, <- IH. reflexivity.
    + apply (f_equal (@length _)) in IH. rewrite map_last_length in IH.
      discriminate.
  - rewrite (Hsplit (rstrip s)), Hsplit, Es, IH.
    destruct (Ascii.eqb a c) eqn:Eac.
    + reflexivity.
    + destruct fs as [|f' fs].
      * simpl. apply split_single in Es. subst f. now rewrite E.
      * reflexivity.
Qed.

Lemma split_strip (c : ascii) (s : str) :
  isspace c = false ->
  split c (strip s) = map_first lstrip (map_last rstrip (split c s)).
Proof.
  intros Hc. unfold strip. now rewrite split_lstrip, split_rstrip.
Qed.

End StripFacts.

Section ExtractionFacts.

Lemma app_snoc {A : Type} (a : list A) (x : A) (b : list A) :
  (a ++ [x]) ++ b = a ++ x :: b.
Proof. now rewrite <- app_assoc. Qed.

Lemma comma_not_space : isspace COMMA = false.
Proof. reflexivity. Qed.

Lemma map_first_length {A : Type} (g : A -> A) (l : list A) :
  length (map_first g l) = length l.
Proof. destruct l; reflexivity. Qed.

(** The fields of a trimmed line and the fields of the line give the same
    record. *)
Lemma row_of_stripped_line (line : str) :
  row_record (strip line) = row_record line.
Proof.
  unfold row_record. rewrite split_strip by reflexivity.
  destruct (split COMMA line) as [|f0 [|f1 [|f2 fs]]]; try reflexivity.
  destruct fs as [|f3 fs].
  - simpl map_last. simpl map_first. cbv beta iota.
    now rewrite strip_lstrip, strip_rstrip.
  - change (map_last rstrip (f0 :: f1 :: f2 :: f3 :: fs))
      with (f0 :: f1 :: f2 :: map_last rstrip (f3 :: fs)).
    simpl map_first. cbv beta iota. now rewrite strip_lstrip.
Qed.

(** One iteration of the row loop appends the record of the line, if any. *)
Lemma parse_rows_cons (line : str) (rest : list str) (acc : list Segment) :
  parse_rows (line :: rest) acc =
  parse_rows rest (acc ++ match row_record line with
                          | Some r => [r]
                          | None => []
                          end).
Proof.
  rewrite <- row_of_stripped_line. unfold row_record. simpl parse_rows.
  destruct (split COMMA (strip line)) as [|f0 [|f1 [|f2 fs]]];
    try (simpl; now rewrite app_nil_r).
  change (3 <=? length (f0 :: f1 :: f2 :: fs)) with true.
  cbv beta iota. unfold index. simpl nth_error. cbv beta iota.
  unfold truthy.
  destruct (is_empty (strip f0)), (is_empty (strip f1)), (is_empty (strip f2));
    simpl; now rewrite ?app_nil_r.
Qed.

(** The row loop never raises, and keeps the accepted rows in order. *)
Lemma parse_rows_spec (lines : list str) (acc : list Segment) :
  parse_rows lines acc = inr (acc ++ filter_map row_record lines).
Proof.
  revert acc. induction lines as [|line rest IH]; intros acc.
  - simpl. now rewrite app_nil_r.
  - rewrite parse_rows_cons, IH. simpl filter_map.
    destruct (row_record line); now rewrite <- ?app_assoc, ?app_nil_r.
Qed.

Lemma scan_lines_cons_in_csv (raw : str) (rest acc : list str) :
  scan_lines (raw :: rest) true acc =
  if is_header_line (strip raw) then scan_lines rest true (acc ++ [strip raw])
  else if comma_shaped (strip raw) then scan_lines rest true (acc ++ [strip raw])
  else if is_empty (strip raw) then scan_lines rest true acc
  else acc.
Proof. reflexivity. Qed.

Lemma scan_lines_cons_before (raw : str) (rest acc : list str) :
  scan_lines (raw :: rest) false acc =
  if is_header_line (strip raw) then scan_lines rest true (acc ++ [strip raw])
  else scan_lines rest false acc.
Proof. reflexivity. Qed.

Lemma comma_shaped_nil : comma_shaped [] = false.
Proof. reflexivity. Qed.

(** After the header, the loop captures what [capture_rows] captures. *)
Lemma scan_lines_in_csv (lines : list str) (acc : list str) :
  scan_lines lines true acc = acc ++ capture_rows (map strip lines).
Proof.
  revert acc. induction lines as [|raw rest IH]; intros acc.
  - simpl. now rewrite app_nil_r.
  - rewrite scan_lines_cons_in_csv. simpl map. simpl capture_rows.
    destruct (is_header_line (strip raw)) eqn:Eh.
    + apply header_line_shape in Eh as [Hc He]. rewrite He, Hc, IH.
      apply app_snoc.
    + destruct (strip raw) as [|c l] eqn:Es.
      * rewrite comma_shaped_nil. simpl is_empty. cbv iota. apply IH.
      * simpl is_empty. cbv iota. destruct (comma_shaped (c :: l)).
        -- rewrite IH. apply app_snoc.
        -- now rewrite app_nil_r.
Qed.

(** Before the header, the loop ignores the lines. *)
Lemma scan_lines_before (lines : list str) (acc : list str) :
  scan_lines lines false acc = acc ++ capture_table (map strip lines).
Proof.
  revert acc. induction lines as [|raw rest IH]; intros acc.
  - simpl. now rewrite app_nil_r.
  - rewrite scan_lines_cons_before. simpl map. simpl capture_table.
    destruct (is_header_line (strip raw)).
    + rewrite scan_lines_in_csv. apply app_snoc.
    + apply IH.
Qed.

Lemma capture_rows_take_while (lines : list str) :
  capture_rows lines =
  filter (fun l => negb (is_empty l))
         (take_while (fun l => is_empty l || comma_shaped l) lines).
Proof.
  induction lines as [|l rest IH]; [reflexivity|].
  simpl. destruct (is_empty l) eqn:E; simpl.
  - rewrite E. exact IH.
  - destruct (comma_shaped l); simpl; [|reflexivity].
    rewrite E. simpl. now rewrite IH.
Qed.

Lemma capture_table_none (lines : list str) :
  (forall l, In l lines -> is_header_line l = false) ->
  capture_table lines = [].
Proof.
  induction lines as [|l rest IH]; intros H; [reflexivity|].
  simpl. rewrite (H l (or_introl eq_refl)). apply IH.
  intros l' Hl'. apply H. now right.
Qed.

Lemma capture_table_at_header (pre : list str) (h : str) (rest : list str) :
  (forall l, In l pre -> is_header_line l = false) ->
  is_header_line h = true ->
  capture_table (pre ++ h :: rest) = h :: capture_rows rest.
Proof.
  induction pre as [|l pre IH]; intros Hpre Hh.
  - simpl. now rewrite Hh.
  - simpl. rewrite (Hpre l (or_introl eq_refl)). apply IH; [|exact Hh].
    intros l' Hl'. apply Hpre. now right.
Qed.

End ExtractionFacts.

Section FenceFacts.

Lemma has_text_app (a b : str) : has_text (a ++ b) = has_text a || has_text b.
Proof. apply existsb_app. Qed.

Lemma rstrip_empty (s : str) : is_empty (rstrip s) = negb (has_text s).
Proof.
  induction s as [|c s IH]; [reflexivity|].
  simpl. destruct (isspace c); simpl.
  - destruct (rstrip s); simpl in *; [now rewrite <- IH|exact IH].
  - reflexivity.
Qed.

Lemma lstrip_empty (s : str) : is_empty (lstrip s) = negb (has_text s).
Proof.
  induction s as [|c s IH]; [reflexivity|].
  simpl. destruct (isspace c); simpl; [exact IH|reflexivity].
Qed.

Lemma has_text_rstrip (s : str) : has_text (rstrip s) = has_text s.
Proof.
  induction s as [|c s IH]; [reflexivity|].
  simpl. destruct (isspace c) eqn:E; simpl.
  - destruct (rstrip s) eqn:Er; simpl in *.
    + exact IH.
    + rewrite E. simpl. exact IH.
  - now rewrite E.
Qed.

Lemma has_text_lstrip (s : str) : has_text (lstrip s) = has_text s.
Proof.
  induction s as [|c s IH]; [reflexivity|].
  simpl. destruct (isspace c) eqn:E; simpl; [exact IH|now rewrite E].
Qed.

Lemma strip_empty (s : str) : is_empty (strip s) = negb (has_text s).
Proof. unfold strip. now rewrite lstrip_empty, has_text_rstrip. Qed.

Lemma lstrip_app (a b : str) :
  has_text a = true -> lstrip (a ++ b) = lstrip a ++ b.
Proof.
  induction a as [|c a IH]; [discriminate|].
  simpl. destruct (isspace c); simpl; [exact IH|reflexivity].
Qed.

Lemma rstrip_app (a b : str) :
  has_text b = true -> rstrip (a ++ b) = a ++ rstrip b.
Proof.
  intros Hb. induction a as [|c a IH]; [reflexivity|].
  simpl. rewrite IH.
  assert (E : is_empty (a ++ rstrip b) = false).
  { pose proof (rstrip_empty b) as H. rewrite Hb in H. simpl in H.
    destruct a; [exact H|reflexivity]. }
  rewrite E, andb_false_r. reflexivity.
Qed.

Lemma join_cons (c : ascii) (l : str) (ls : list str) :
  ls <> [] -> join c (l :: ls) = l ++ c :: join c ls.
Proof. destruct ls; [congruence|reflexivity]. Qed.

Lemma split_app_no_sep (c : ascii) (l r : str) :
  existsb (Ascii.eqb c) l = false ->
  split c (l ++ c :: r) = l :: split c r.
Proof.
  induction l as [|a l IH]; intros H.
  - simpl. now rewrite Ascii.eqb_refl.
  - simpl in H. apply orb_false_iff in H as [Ha Hl].
    simpl. rewrite Ascii.eqb_sym, Ha. rewrite (IH Hl). reflexivity.
Qed.

Lemma split_no_sep (c : ascii) (l : str) :
  existsb (Ascii.eqb c) l = false -> split c l = [l].
Proof.
  induction l as [|a l IH]; intros H; [reflexivity|].
  simpl in H. apply orb_false_iff in H as [Ha Hl].
  simpl. rewrite Ascii.eqb_sym, Ha. rewrite (IH Hl). reflexivity.
Qed.

(** Splitting the joined lines gives the lines back. *)
Lemma split_join (c : ascii) (ls : list str) :
  ls <> [] ->
  Forall (fun l => existsb (Ascii.eqb c) l = false) ls ->
  split c (join c ls) = ls.
Proof.
  induction ls as [|l ls IH]; intros Hne Hall; [congruence|].
  inversion Hall as [|? ? Hl Hls]; subst.
  destruct ls as [|l' ls].
  - simpl. now apply split_no_sep.
  - rewrite join_cons by discriminate.
    rewrite split_app_no_sep by exact Hl.
    rewrite IH; [reflexivity|discriminate|exact Hls].
Qed.

Lemma has_text_join (ls : list str) (l : str) :
  has_text l = true -> has_text (join LF (l :: ls)) = true.
Proof.
  intros H. destruct ls; [exact H|].
  rewrite join_cons by discriminate. rewrite has_text_app, H. reflexivity.
Qed.

(** Trimming the joined lines on the right trims the last line. *)
Lemma rstrip_join (ls : list str) :
  Forall (fun l => has_text l = true) ls ->
  rstrip (join LF ls) = join LF (map_last rstrip ls).
Proof.
  induction ls as [|l ls IH]; intros Hall; [reflexivity|].
  inversion Hall as [|? ? Hl Hls]; subst.
  destruct ls as [|l' ls]; [reflexivity|].
  rewrite join_cons by discriminate.
  change (l ++ LF :: join LF (l' :: ls)) with (l ++ [LF] ++ join LF (l' :: ls)).
  rewrite app_assoc, rstrip_app.
  - rewrite (IH Hls). rewrite <- app_assoc.
    change (map_last rstrip (l :: l' :: ls))
      with (l :: map_last rstrip (l' :: ls)).
    rewrite join_cons; [reflexivity|].
    intros E. apply (f_equal (@length _)) in E.
    rewrite map_last_length in E. discriminate.
  - inversion Hls; subst. now apply has_text_join.
Qed.

(** Trimming the joined lines on the left trims the first line. *)
Lemma lstrip_join (ls : list str) (l : str) :
  has_text l = true ->
  lstrip (join LF (l :: ls)) = join LF (lstrip l :: ls).
Proof.
  intros H. destruct ls; [reflexivity|].
  rewrite !join_cons by discriminate. now apply lstrip_app.
Qed.

Lemma map_last_head_text (l : str) (ls : list str) :
  has_text l = true ->
  exists l' ls', map_last rstrip (l :: ls) = l' :: ls'
                 /\ has_text l' = true /\ lstrip l' :: ls' =
                    map_first lstrip (map_last rstrip (l :: ls)).
Proof.
  intros H. destruct ls as [|x ls].
  - exists (rstrip l), []. simpl. now rewrite has_text_rstrip.
  - exists l, (map_last rstrip (x :: ls)).
    change (map_last rstrip (l :: x :: ls))
      with (l :: map_last rstrip (x :: ls)).
    now simpl.
Qed.

(** The lines of a trimmed table whose lines all have text. *)
Lemma strip_join (l : str) (ls : list str) :
  Forall (fun l => has_text l = true) (l :: ls) ->
  strip (join LF (l :: ls)) =
  join LF (map_first lstrip (map_last rstrip (l :: ls))).
Proof.
  intros Hall. unfold strip. rewrite (rstrip_join _ Hall).
  inversion Hall as [|? ? Hl _]; subst.
  destruct (map_last_head_text l ls Hl) as (l' & ls' & E & Hl' & E').
  rewrite E. simpl map_first. now apply lstrip_join.
Qed.

Lemma existsb_cons_eq {A : Type} (f : A -> bool) (x : A) (l : list A) :
  existsb f (x :: l) = f x || existsb f l.
Proof. reflexivity. Qed.

Lemma lazy_group_unfold (s : str) :
  Re.lazy_group s =
  if startswith Re.fence_close s then Some []
  else match s with
       | [] => None
       | c :: t => option_map (cons c) (Re.lazy_group t)
       end.
Proof. destruct s; reflexivity. Qed.

Lemma after_open_unfold (c : ascii) (t : str) :
  Re.after_open (c :: t) =
  if isspace c then
    match Re.after_open t with
    | Some g => Some g
    | None => if Ascii.eqb c LF then Re.lazy_group t else None
    end
  else None.
Proof. reflexivity. Qed.

(** Inside a line the closing fence cannot start: the lazy group takes the
    whole line. *)
Lemma lazy_group_line (l R : str) :
  existsb (Ascii.eqb LF) l = false ->
  Re.lazy_group (l ++ R) = option_map (app l) (Re.lazy_group R).
Proof.
  induction l as [|c l IH]; intros H.
  - simpl. now destruct (Re.lazy_group R).
  - rewrite existsb_cons_eq in H. apply orb_false_iff in H as [Hc Hl].
    simpl app. rewrite lazy_group_unfold.
    change (startswith Re.fence_close (c :: l ++ R))
      with (Ascii.eqb LF c && startswith (lit "```") (l ++ R)).
    rewrite Hc. simpl andb. cbv iota. rewrite (IH Hl).
    now destruct (Re.lazy_group R).
Qed.

Lemma lazy_group_close (post : str) :
  Re.lazy_group (Re.fence_close ++ post) = Some [].
Proof. reflexivity. Qed.

Lemma startswith_cons (a b : ascii) (p s : str) :
  startswith (a :: p) (b :: s) = Ascii.eqb a b && startswith p s.
Proof. reflexivity. Qed.

(** A pattern without line feed that does not match at the start of a line
    does not match when text follows the end of the line. *)
Lemma startswith_line (p l T : str) :
  existsb (Ascii.eqb LF) p = false ->
  startswith p l = false ->
  startswith p (l ++ LF :: T) = false.
Proof.
  revert l. induction p as [|a p IH]; intros l Hp H; [discriminate|].
  rewrite existsb_cons_eq in Hp. apply orb_false_iff in Hp as [Ha Hp].
  destruct l as [|b l].
  - simpl app. rewrite startswith_cons, Ascii.eqb_sym, Ha. reflexivity.
  - simpl app. rewrite startswith_cons in *.
    destruct (Ascii.eqb a b); [|reflexivity].
    simpl in *. now apply IH.
Qed.

(** A line that does not start with three back quotes does not start a
    closing fence, whatever follows its end. *)
Lemma no_fence_at_line (l T : str) :
  startswith (lit "```") l = false ->
  startswith (lit "```") (l ++ LF :: T) = false.
Proof. now apply startswith_line. Qed.

Lemma lazy_group_lf (l T : str) :
  startswith (lit "```") l = false ->
  Re.lazy_group (LF :: l ++ LF :: T) =
  option_map (cons LF) (Re.lazy_group (l ++ LF :: T)).
Proof.
  intros H. rewrite lazy_group_unfold.
  change (startswith Re.fence_close (LF :: l ++ LF :: T))
    with (Ascii.eqb LF LF && startswith (lit "```") (l ++ LF :: T)).
  rewrite (no_fence_at_line l T H). reflexivity.
Qed.

Lemma table_line_iff (l : str) :
  table_line l = true <->
  existsb (Ascii.eqb LF) l = false /\ startswith (lit "```") l = false.
Proof.
  unfold table_line. rewrite andb_true_iff, !negb_true_iff. reflexivity.
Qed.

Lemma joined_tail (l : str) (ls : list str) (post : str) :
  exists T, join LF (l :: ls) ++ Re.fence_close ++ post = l ++ LF :: T.
Proof.
  destruct ls as [|l' ls].
  - now exists (lit "```" ++ post).
  - rewrite join_cons by discriminate. rewrite <- app_assoc.
    now exists (join LF (l' :: ls) ++ Re.fence_close ++ post).
Qed.

(** The lazy group of a table is the table up to the closing fence. *)
Lemma lazy_group_table (l : str) (ls : list str) (post : str) :
  Forall (fun l => table_line l = true) (l :: ls) ->
  Re.lazy_group (join LF (l :: ls) ++ Re.fence_close ++ post)
  = Some (join LF (l :: ls)).
Proof.
  revert l. induction ls as [|l' ls IH]; intros l Hall;
    inversion Hall as [|? ? Hl Hls]; subst;
    apply table_line_iff in Hl as [Hlf Hbq].
  - simpl join. rewrite (lazy_group_line _ _ Hlf), lazy_group_close.
    simpl. now rewrite app_nil_r.
  - rewrite join_cons by discriminate. rewrite <- app_assoc.
    rewrite (lazy_group_line _ _ Hlf). rewrite <- app_comm_cons.
    destruct (joined_tail l' ls post) as [T ET].
    pose proof (IH l' Hls) as IH'. rewrite ET in *.
    inversion Hls as [|? ? Hl' _]; subst.
    apply table_line_iff in Hl' as [_ Hbq'].
    rewrite (lazy_group_lf _ T Hbq'), IH'. reflexivity.
Qed.

(** White space and then text without a line feed: the greedy class finds no
    line feed to give back. *)
Lemma after_open_text (h T : str) :
  existsb (Ascii.eqb LF) h = false -> has_text h = true ->
  Re.after_open (h ++ T) = None.
Proof.
  induction h as [|c h IH]; intros Hlf Ht; [discriminate|].
  rewrite existsb_cons_eq in Hlf. apply orb_false_iff in Hlf as [Hc Hlf].
  simpl app. rewrite after_open_unfold.
  unfold has_text in Ht. rewrite existsb_cons_eq in Ht.
  destruct (isspace c); [|reflexivity].
  simpl in Ht. rewrite (IH Hlf Ht). rewrite Ascii.eqb_sym, Hc. reflexivity.
Qed.

Lemma after_open_ws (ws Z : str) (g : str) :
  forallb isspace ws = true ->
  Re.after_open (LF :: Z) = Some g ->
  Re.after_open (ws ++ LF :: Z) = Some g.
Proof.
  induction ws as [|c ws IH]; intros Hws H; [exact H|].
  simpl in Hws. apply andb_true_iff in Hws as [Hc Hws].
  simpl app. rewrite after_open_unfold, Hc, (IH Hws H). reflexivity.
Qed.

Lemma after_open_lf (Z : str) :
  Re.after_open Z = None -> Re.after_open (LF :: Z) = Re.lazy_group Z.
Proof. intros H. rewrite after_open_unfold, H. reflexivity. Qed.

Lemma search_unfold (s : str) :
  Re.search_csv_block s =
  match Re.match_here s with
  | Some g => Some g
  | None => match s with
            | [] => None
            | _ :: t => Re.search_csv_block t
            end
  end.
Proof. destruct s; reflexivity. Qed.

(** No match starts in a text without back quotes. *)
Lemma search_skip (pre X : str) :
  no_backquote pre = true ->
  Re.search_csv_block (pre ++ X) = Re.search_csv_block X.
Proof.
  unfold no_backquote. rewrite negb_true_iff.
  induction pre as [|c pre IH]; intros H; [reflexivity|].
  rewrite existsb_cons_eq in H. apply orb_false_iff in H as [Hc Hpre].
  simpl app. rewrite search_unfold.
  assert (E : Re.match_here (c :: pre ++ X) = None).
  { unfold Re.match_here.
    change (startswith Re.fence_open (c :: pre ++ X))
      with (Ascii.eqb BACKQUOTE c && startswith (lit "``csv") (pre ++ X)).
    now rewrite Hc. }
  rewrite E. exact (IH Hpre).
Qed.

Lemma search_at_fence (Y g : str) :
  Re.after_open Y = Some g ->
  Re.search_csv_block (Re.fence_open ++ Y) = Some g.
Proof.
  intros H. rewrite search_unfold. unfold Re.match_here.
  rewrite startswith_app.
  change (skipn (length Re.fence_open) (Re.fence_open ++ Y)) with Y.
  now rewrite H.
Qed.

(** The fenced block of a well-formed response is its table. *)
Lemma search_fenced (pre ws header : str) (rows : list str) (post : str) :
  no_backquote pre = true ->
  forallb isspace ws = true ->
  has_text header = true ->
  Forall (fun l => table_line l = true) (header :: rows) ->
  Re.search_csv_block (fenced_response pre ws header rows post)
  = Some (join LF (header :: rows)).
Proof.
  intros Hpre Hws Ht Hall. unfold fenced_response.
  rewrite (search_skip _ _ Hpre). apply search_at_fence.
  apply (after_open_ws _ _ _ Hws).
  inversion Hall as [|? ? Hh _]; subst.
  apply table_line_iff in Hh as [Hlf _].
  rewrite after_open_lf.
  - now apply lazy_group_table.
  - destruct (joined_tail header rows post) as [T ->].
    now apply after_open_text.
Qed.

End FenceFacts.

Section ExtractionTheorems.

Lemma has_text_join_sep (c : ascii) (ls : list str) (l : str) :
  has_text l = true -> has_text (join c (l :: ls)) = true.
Proof.
  intros H. destruct ls; [exact H|].
  rewrite join_cons by discriminate. rewrite has_text_app, H. reflexivity.
Qed.

Lemma row_of_rstripped_line (line : str) :
  row_record (rstrip line) = row_record line.
Proof.
  unfold row_record. rewrite split_rstrip by reflexivity.
  destruct (split COMMA line) as [|f0 [|f1 [|f2 fs]]]; try reflexivity.
  destruct fs as [|f3 fs].
  - simpl map_last. cbv beta iota. now rewrite strip_rstrip.
  - reflexivity.
Qed.

Lemma valid_row_has_text (line : str) :
  valid_row line = true -> has_text line = true.
Proof.
  unfold valid_row, row_record. intros H.
  rewrite <- (join_split COMMA line).
  destruct (split COMMA line) as [|f0 [|f1 [|f2 fs]]]; try discriminate.
  apply has_text_join_sep.
  rewrite strip_empty in H. destruct (has_text f0); [reflexivity|discriminate].
Qed.

Lemma filter_map_rstrip_last (rows : list str) :
  filter_map row_record (map_last rstrip rows) = filter_map row_record rows.
Proof.
  induction rows as [|r [|r' rows] IH]; [reflexivity| |].
  - simpl. now rewrite row_of_rstripped_line.
  - change (map_last rstrip (r :: r' :: rows))
      with (r :: map_last rstrip (r' :: rows)).
    change (filter_map row_record (r :: map_last rstrip (r' :: rows)))
      with (match row_record r with
            | Some y => y :: filter_map row_record (map_last rstrip (r' :: rows))
            | None => filter_map row_record (map_last rstrip (r' :: rows))
            end).
    rewrite IH. reflexivity.
Qed.

Lemma filter_map_valid (rows : list str) :
  Forall (fun r => valid_row r = true) rows ->
  map Some (filter_map row_record rows) = map row_record rows.
Proof.
  induction 1 as [|r rows Hr _ IH]; [reflexivity|].
  simpl. unfold valid_row in Hr.
  destruct (row_record r); [|discriminate]. simpl. now rewrite IH.
Qed.

Lemma existsb_lstrip (f : ascii -> bool) (l : str) :
  existsb f l = false -> existsb f (lstrip l) = false.
Proof.
  induction l as [|c l IH]; intros H; [reflexivity|].
  simpl. destruct (isspace c); [|exact H].
  rewrite existsb_cons_eq in H. apply orb_false_iff in H as [_ H]. now apply IH.
Qed.

Lemma existsb_rstrip (f : ascii -> bool) (l : str) :
  existsb f l = false -> existsb f (rstrip l) = false.
Proof.
  induction l as [|c l IH]; intros H; [reflexivity|].
  rewrite existsb_cons_eq in H. apply orb_false_iff in H as [Hc H].
  simpl. destruct (isspace c && is_empty (rstrip l)); [reflexivity|].
  rewrite existsb_cons_eq, Hc. now apply IH.
Qed.

Lemma Forall_map_last {A : Type} (P : A -> Prop) (g : A -> A) (l : list A) :
  (forall x, P x -> P (g x)) -> Forall P l -> Forall P (map_last g l).
Proof.
  intros Hg. induction l as [|x [|y l] IH]; intros H.
  - constructor.
  - inversion H; subst. constructor; [now apply Hg|constructor].
  - inversion H; subst.
    change (map_last g (x :: y :: l)) with (x :: map_last g (y :: l)).
    constructor; [assumption|now apply IH].
Qed.

Lemma Forall_map_first {A : Type} (P : A -> Prop) (g : A -> A) (l : list A) :
  (forall x, P x -> P (g x)) -> Forall P l -> Forall P (map_first g l).
Proof.
  intros Hg H. destruct l; [constructor|].
  inversion H; subst. constructor; [now apply Hg|assumption].
Qed.

(** With at least two lines in the table, the result is the records of the
    lines after the first, in order. *)
Lemma parse_table_rows (response : str) :
  2 <= length (split LF (strip (csv_content response))) ->
  _parse_csv_response response =
  filter_map row_record (tl (split LF (strip (csv_content response)))).
Proof.
  intros H. unfold _parse_csv_response, parse_csv_body.
  destruct (csv_content response) as [|c content] eqn:E.
  - simpl in H. lia.
  - unfold truthy. simpl is_empty. simpl negb. cbv iota.
    destruct (length (split LF (strip (c :: content))) <? 2) eqn:El.
    + apply Nat.ltb_lt in El. lia.
    + now rewrite parse_rows_spec.
Qed.

(** The lines of the table of a well-formed fenced response. *)
Lemma fenced_lines (pre ws header : str) (rows : list str) (post : str) :
  no_backquote pre = true ->
  forallb isspace ws = true ->
  has_text header = true ->
  Forall (fun l => table_line l = true) (header :: rows) ->
  Forall (fun r => valid_row r = true) rows ->
  split LF (strip (csv_content (fenced_response pre ws header rows post)))
  = map_first lstrip (map_last rstrip (header :: rows)).
Proof.
  intros Hpre Hws Ht Hall Hvalid. unfold csv_content.
  rewrite (search_fenced pre ws header rows post Hpre Hws Ht Hall).
  rewrite strip_idem.
  assert (Htext : Forall (fun l => has_text l = true) (header :: rows)).
  { constructor; [exact Ht|].
    eapply Forall_impl; [|exact Hvalid]. apply valid_row_has_text. }
  rewrite (strip_join header rows Htext).
  apply split_join.
  - intros E. apply (f_equal (@length _)) in E.
    rewrite map_first_length, map_last_length in E. discriminate.
  - apply Forall_map_first; [apply existsb_lstrip|].
    apply Forall_map_last; [apply existsb_rstrip|].
    eapply Forall_impl; [|exact Hall].
    intros l Hl. now apply table_line_iff in Hl.
Qed.

End ExtractionTheorems.

Section ExtractionClaims.

Lemma parse_short_table (response : str) :
  length (split LF (strip (csv_content response))) < 2 ->
  _parse_csv_response response = [].
Proof.
  intros H. unfold _parse_csv_response, parse_csv_body.
  destruct (negb (truthy (csv_content response))); [reflexivity|].
  apply Nat.ltb_lt in H. now rewrite H.
Qed.

Lemma parse_empty_content (response : str) :
  csv_content response = [] -> _parse_csv_response response = [].
Proof.
  intros H. unfold _parse_csv_response, parse_csv_body. now rewrite H.
Qed.

Lemma fallback_is_capture (response : str) :
  Re.search_csv_block response = None ->
  csv_content response =
  join LF (capture_table (map strip (split LF (strip response)))).
Proof.
  intros H. unfold csv_content, fallback_content. rewrite H.
  now rewrite scan_lines_before.
Qed.

(** C1. When the response has no fenced CSV block, the candidate table is
    found by the line scan: over the trimmed lines of the trimmed response,
    the lines before the first header line (a line that contains
    [event_id,start_time,end_time] in any case) are ignored, the header line
    is captured, and after it the blank lines are skipped and the
    table-shaped lines are captured up to the first line that is neither;
    without a header line nothing is captured. *)
Theorem fallback_scan_captures_table (response : str) :
  Re.search_csv_block response = None ->
  let lines := map strip (split LF (strip response)) in
  csv_content response = join LF (capture_table lines)
  /\ (forall pre h rest,
        lines = pre ++ h :: rest ->
        (forall l, In l pre -> is_header_line l = false) ->
        is_header_line h = true ->
        capture_table lines =
        h :: filter (fun l => negb (is_empty l))
               (take_while (fun l => is_empty l || comma_shaped l) rest))
  /\ ((forall l, In l lines -> is_header_line l = false) ->
      capture_table lines = []).
Proof.
  intros H lines. split; [|split].
  - now apply fallback_is_capture.
  - intros pre h rest E Hpre Hh. rewrite E.
    rewrite (capture_table_at_header pre h rest Hpre Hh).
    now rewrite capture_rows_take_while.
  - apply capture_table_none.
Qed.

Lemma fallback_scan_captures_table_witness :
  csv_content sample_unfenced =
  unlines ["Event_ID,Start_Time,End_Time"; "ev1,00:00,01:30";
           "ev2 ,01:30,01:10"; ",1,2"]%string
  /\ capture_table (map strip (split LF (strip sample_prose))) = [].
Proof.
  split.
  - destruct (fallback_scan_captures_table sample_unfenced) as (E & H & _).
    + vm_compute. reflexivity.
    + rewrite E.
      rewrite (H (map lit ["Segments follow"; "a,b,c"]%string)
                 (lit "Event_ID,Start_Time,End_Time")
                 (map lit ["ev1,00:00,01:30"; ""; "ev2 ,01:30,01:10"; ",1,2";
                           "x,y"; "That is all."; "ev9,1,2"]%string)).
      * vm_compute. reflexivity.
      * vm_compute. reflexivity.
      * intros l [<-|[<-|[]]]; vm_compute; reflexivity.
      * vm_compute. reflexivity.
  - destruct (fallback_scan_captures_table sample_prose) as (_ & _ & H).
    + vm_compute. reflexivity.
    + apply H. intros l [<-|[]]. vm_compute. reflexivity.
Defined.

(** C2. When the candidate table has at least two lines, the first line is
    dropped as the header and the result is, in order, the records of the
    remaining lines: a line gives a record exactly when it splits on commas
    into at least three fields whose first three are not empty once trimmed,
    and the record holds these three trimmed fields.  In particular a
    well-formed fenced response with a header and N valid rows gives exactly
    the N records of its rows, in order. *)
Theorem table_rows_become_records :
  (forall response,
      2 <= length (split LF (strip (csv_content response))) ->
      _parse_csv_response response =
      filter_map row_record (tl (split LF (strip (csv_content response)))))
  /\ (forall line seg,
        row_record line = Some seg <->
        exists f0 f1 f2 fs,
          split COMMA line = f0 :: f1 :: f2 :: fs
          /\ strip f0 <> [] /\ strip f1 <> [] /\ strip f2 <> []
          /\ seg = mkSegment (strip f0) (strip f1) (strip f2))
  /\ (forall pre ws header rows post,
        no_backquote pre = true ->
        forallb isspace ws = true ->
        has_text header = true ->
        Forall (fun l => table_line l = true) (header :: rows) ->
        Forall (fun r => valid_row r = true) rows ->
        map Some (_parse_csv_response (fenced_response pre ws header rows post))
        = map row_record rows
        /\ length (_parse_csv_response (fenced_response pre ws header rows post))
           = length rows).
Proof.
  split; [exact parse_table_rows|split].
  - intros line seg. unfold row_record. split.
    + destruct (split COMMA line) as [|f0 [|f1 [|f2 fs]]]; try discriminate.
      destruct (strip f0) eqn:E0; [discriminate|].
      destruct (strip f1) eqn:E1; [discriminate|].
      destruct (strip f2) eqn:E2; [discriminate|].
      simpl. intros [= <-]. exists f0, f1, f2, fs.
      rewrite E0, E1, E2. repeat split; discriminate.
    + intros (f0 & f1 & f2 & fs & -> & H0 & H1 & H2 & ->).
      destruct (strip f0); [congruence|].
      destruct (strip f1); [congruence|].
      destruct (strip f2); [congruence|]. reflexivity.
  - intros pre ws header rows post Hpre Hws Ht Hall Hvalid.
    assert (E : _parse_csv_response (fenced_response pre ws header rows post)
                = filter_map row_record rows).
    { pose proof (fenced_lines pre ws header rows post Hpre Hws Ht Hall Hvalid)
        as Hl.
      destruct rows as [|r rows].
      - apply parse_short_table. rewrite Hl. simpl. lia.
      - rewrite parse_table_rows; rewrite Hl.
        + change (map_last rstrip (header :: r :: rows))
            with (header :: map_last rstrip (r :: rows)).
          exact (filter_map_rstrip_last (r :: rows)).
        + rewrite map_first_length, map_last_length. simpl. lia. }
    assert (E' := filter_map_valid rows Hvalid). rewrite <- E in E'.
    split; [exact E'|].
    apply (f_equal (@length _)) in E'. now rewrite !length_map in E'.
Qed.

Lemma table_rows_become_records_witness :
  _parse_csv_response sample_unfenced =
    [mkSegment (lit "ev1") (lit "00:00") (lit "01:30");
     mkSegment (lit "ev2") (lit "01:30") (lit "01:10")]
  /\ row_record (lit " ev2 ,01:30,01:10 ")
     = Some (mkSegment (lit "ev2") (lit "01:30") (lit "01:10"))
  /\ length (_parse_csv_response sample_fenced) = 3.
Proof.
  destruct table_rows_become_records as (H1 & H2 & H3).
  split; [|split].
  - rewrite H1; [vm_compute; reflexivity|].
    vm_compute. repeat constructor.
  - apply H2.
    exists (lit " ev2 "), (lit "01:30"), (lit "01:10 "), [].
    vm_compute. repeat split; discriminate.
  - apply (H3 sample_pre (lit " ") sample_header sample_rows sample_post);
      try (vm_compute; reflexivity);
      repeat constructor.
Defined.

(** C3. Extraction is total and never raises: the body of the [try] always
    returns, so the handler never runs; the result is the empty sequence when
    the candidate text is empty, when it has fewer than two lines, and when
    the response has neither a fenced block nor a header line. *)
Theorem extraction_never_raises (response : str) :
  (exists segs, parse_csv_body response = inr segs
                /\ _parse_csv_response response = segs)
  /\ (csv_content response = [] -> _parse_csv_response response = [])
  /\ (length (split LF (strip (csv_content response))) < 2 ->
      _parse_csv_response response = [])
  /\ (Re.search_csv_block response = None ->
      (forall l, In l (map strip (split LF (strip response))) ->
                 is_header_line l = false) ->
      _parse_csv_response response = []).
Proof.
  split; [|split; [|split]].
  - unfold _parse_csv_response, parse_csv_body.
    destruct (negb (truthy (csv_content response))); [now exists []|].
    destruct (length (split LF (strip (csv_content response))) <? 2);
      [now exists []|].
    rewrite parse_rows_spec. eexists. split; reflexivity.
  - apply parse_empty_content.
  - apply parse_short_table.
  - intros H Hno. apply parse_empty_content.
    rewrite (fallback_is_capture response H).
    now rewrite (capture_table_none _ Hno).
Qed.

Lemma extraction_never_raises_witness :
  _parse_csv_response sample_prose = []
  /\ _parse_csv_response sample_header_only = []
  /\ _parse_csv_response [] = [].
Proof.
  split; [|split].
  - destruct (extraction_never_raises sample_prose) as (_ & _ & _ & H).
    apply H; [vm_compute; reflexivity|].
    intros l [<-|[]]. vm_compute. reflexivity.
  - destruct (extraction_never_raises sample_header_only) as (_ & _ & H & _).
    apply H. vm_compute. repeat constructor.
  - destruct (extraction_never_raises []) as (_ & H & _).
    apply H. reflexivity.
Defined.

End ExtractionClaims.

Section TimecodeFacts.

Local Open Scope Z_scope.

Ltac char_cases c :=
  destruct c as [[] [] [] [] [] [] [] []]; vm_compute;
  try reflexivity; try discriminate.

Lemma digit_not_int_space (c : ascii) :
  isdigit c = true -> PyInt.int_space c = false.
Proof. char_cases c. Qed.

Lemma digit_not_space (c : ascii) : isdigit c = true -> isspace c = false.
Proof. char_cases c. Qed.

Lemma digit_not_char (x c : ascii) :
  isdigit x = false -> isdigit c = true -> Ascii.eqb x c = false.
Proof.
  intros Hx Hc. destruct (Ascii.eqb x c) eqn:E; [|reflexivity].
  apply Ascii.eqb_eq in E. congruence.
Qed.

Lemma forallb_existsb (p f : ascii -> bool) (s : str) :
  (forall c, p c = true -> f c = false) ->
  forallb p s = true -> existsb f s = false.
Proof.
  intros H. induction s as [|c s IH]; intros Hs; [reflexivity|].
  simpl in Hs. apply andb_true_iff in Hs as [Hc Hs].
  rewrite existsb_cons_eq, (H c Hc), (IH Hs). reflexivity.
Qed.

Lemma digits_no_char (x : ascii) (ds : str) :
  isdigit x = false -> forallb isdigit ds = true ->
  existsb (Ascii.eqb x) ds = false.
Proof.
  intros Hx. apply forallb_existsb. intros c. now apply digit_not_char.
Qed.

Lemma drop_trailing_space_digits (ds : str) :
  forallb isdigit ds = true -> PyInt.drop_trailing_space ds = ds.
Proof.
  induction ds as [|c ds IH]; intros H; [reflexivity|].
  simpl in H. apply andb_true_iff in H as [Hc H].
  simpl. rewrite (digit_not_int_space c Hc), (IH H). reflexivity.
Qed.

Lemma rstrip_digits (ds : str) : forallb isdigit ds = true -> rstrip ds = ds.
Proof.
  induction ds as [|c ds IH]; intros H; [reflexivity|].
  simpl in H. apply andb_true_iff in H as [Hc H].
  simpl. rewrite (digit_not_space c Hc), (IH H). reflexivity.
Qed.

Lemma plain_digits_iff (ds : str) :
  plain_digits ds = true <->
  ds <> [] /\ forallb isdigit ds = true
  /\ (length ds <= PyInt.int_max_str_digits)%nat.
Proof.
  unfold plain_digits. rewrite !andb_true_iff, Nat.leb_le.
  destruct ds; simpl; intuition congruence.
Qed.

Lemma literal_digits_plain (ds : str) :
  ds <> [] -> forallb isdigit ds = true -> PyInt.literal_digits ds = Some ds.
Proof.
  intros Hne Hd. unfold PyInt.literal_digits.
  rewrite (split_no_sep "_"%char ds) by (now apply digits_no_char).
  unfold PyInt.digit_group. simpl forallb. rewrite Hd.
  destruct ds; [congruence|]. simpl. now rewrite app_nil_r.
Qed.

(** [int()] on a field of plain digits is its decimal value. *)
Lemma int_plain_digits (ds : str) :
  plain_digits ds = true -> PyInt.int ds = inr (PyInt.digits_value ds).
Proof.
  intros H. apply plain_digits_iff in H as (Hne & Hd & Hlen).
  unfold PyInt.int.
  assert (Hskip : PyInt.skip_space ds = ds).
  { destruct ds as [|c ds]; [reflexivity|]. simpl in Hd.
    apply andb_true_iff in Hd as [Hc _].
    simpl. now rewrite (digit_not_int_space c Hc). }
  rewrite Hskip, (drop_trailing_space_digits ds Hd).
  destruct ds as [|c ds]; [congruence|].
  assert (Hc : isdigit c = true) by (simpl in Hd; now apply andb_true_iff in Hd).
  rewrite (Ascii.eqb_sym c "-"%char), (Ascii.eqb_sym c "+"%char).
  rewrite !digit_not_char by (exact Hc || reflexivity).
  rewrite (literal_digits_plain (c :: ds) Hne Hd).
  apply Nat.ltb_ge in Hlen. rewrite Hlen.
  apply f_equal. lia.
Qed.

(** A minus sign before the digits gives the opposite value. *)
Lemma int_minus_digits (ds : str) :
  plain_digits ds = true ->
  PyInt.int ("-"%char :: ds) = inr (- PyInt.digits_value ds).
Proof.
  intros H. apply plain_digits_iff in H as (Hne & Hd & Hlen).
  unfold PyInt.int.
  change (PyInt.skip_space ("-"%char :: ds)) with ("-"%char :: ds).
  change (PyInt.drop_trailing_space ("-"%char :: ds))
    with ("-"%char :: PyInt.drop_trailing_space ds).
  rewrite (drop_trailing_space_digits ds Hd).
  rewrite Ascii.eqb_refl.
  rewrite (literal_digits_plain ds Hne Hd).
  apply Nat.ltb_ge in Hlen. rewrite Hlen.
  apply f_equal. lia.
Qed.

(** [int()] raises nothing but [ValueError]. *)
Lemma int_raises_value_error (s : str) (e : Exn) :
  PyInt.int s = inl e -> e = ValueError.
Proof.
  unfold PyInt.int.
  destruct (PyInt.drop_trailing_space (PyInt.skip_space s)) as [|c t].
  - destruct (PyInt.literal_digits []); [|congruence].
    destruct (_ <? _)%nat; congruence.
  - destruct (Ascii.eqb c "-"%char); [|destruct (Ascii.eqb c "+"%char)];
      (destruct (PyInt.literal_digits _); [|congruence]);
      destruct (_ <? _)%nat; congruence.
Qed.

(** The body of the [try] raises nothing but [ValueError]. *)
Lemma body_raises_value_error (t : str) (e : Exn) :
  time_to_seconds_body t = inl e -> e = ValueError.
Proof.
  unfold time_to_seconds_body.
  destruct (split COLON (strip t)) as [|p0 [|p1 [|p2 [|p3 ps]]]];
    try congruence.
  - destruct (PyInt.int p0) eqn:E0; [apply int_raises_value_error in E0; congruence|].
    destruct (PyInt.int p1) eqn:E1; [apply int_raises_value_error in E1; congruence|].
    congruence.
  - destruct (PyInt.int p0) eqn:E0; [apply int_raises_value_error in E0; congruence|].
    destruct (PyInt.int p1) eqn:E1; [apply int_raises_value_error in E1; congruence|].
    destruct (PyInt.int p2) eqn:E2; [apply int_raises_value_error in E2; congruence|].
    congruence.
Qed.

(** [_time_to_seconds] returns the value of the body, or the fallback when
    the body raises. *)
Lemma time_to_seconds_cases (t : str) :
  _time_to_seconds t =
  match time_to_seconds_body t with
  | inr z => inr (Seconds z)
  | inl _ => inr Fallback
  end.
Proof.
  unfold _time_to_seconds.
  destruct (time_to_seconds_body t) as [e|z] eqn:E; [|reflexivity].
  apply body_raises_value_error in E. now subst e.
Qed.

Lemma time_to_seconds_total (t : str) : exists s, _time_to_seconds t = inr s.
Proof.
  rewrite time_to_seconds_cases.
  destruct (time_to_seconds_body t); eexists; reflexivity.
Qed.

(** Two or three fields that [int()] accepts give the value of the formula. *)
Lemma time_to_seconds_fields (t : str) (zs : list Z) :
  (length zs = 2 \/ length zs = 3)%nat ->
  map PyInt.int (split COLON (strip t)) = map inr zs ->
  _time_to_seconds t = inr (Seconds (timecode_value zs)).
Proof.
  intros Hlen H. rewrite time_to_seconds_cases. unfold time_to_seconds_body.
  destruct zs as [|z0 [|z1 [|z2 [|z3 zs]]]]; simpl in Hlen; try lia;
    destruct (split COLON (strip t)) as [|p0 [|p1 [|p2 [|p3 ps]]]];
    try discriminate; simpl in H.
  - injection H as -> ->. reflexivity.
  - injection H as -> -> ->. reflexivity.
Qed.

(** A field that [int()] rejects gives the fallback. *)
Lemma time_to_seconds_bad_field (t p : str) :
  In p (split COLON (strip t)) ->
  (exists e, PyInt.int p = inl e) ->
  _time_to_seconds t = inr Fallback.
Proof.
  intros Hin [e He]. rewrite time_to_seconds_cases.
  unfold time_to_seconds_body.
  destruct (split COLON (strip t)) as [|p0 [|p1 [|p2 [|p3 ps]]]];
    try reflexivity.
  - destruct Hin as [<-|[<-|[]]].
    + now rewrite He.
    + rewrite He. now destruct (PyInt.int p0).
  - destruct Hin as [<-|[<-|[<-|[]]]].
    + now rewrite He.
    + rewrite He. now destruct (PyInt.int p0).
    + rewrite He. destruct (PyInt.int p0); [reflexivity|].
      now destruct (PyInt.int p1).
Qed.

(** Any number of fields other than two and three gives the fallback. *)
Lemma time_to_seconds_bad_count (t : str) :
  length (split COLON (strip t)) <> 2%nat ->
  length (split COLON (strip t)) <> 3%nat ->
  _time_to_seconds t = inr Fallback.
Proof.
  intros H2 H3. rewrite time_to_seconds_cases. unfold time_to_seconds_body.
  destruct (split COLON (strip t)) as [|p0 [|p1 [|p2 [|p3 ps]]]];
    try reflexivity; simpl in *; congruence.
Qed.

End TimecodeFacts.

Section TimecodeClaims.

Local Open Scope Z_scope.

(** C5. After trimming, a timecode with exactly two fields that [int()]
    accepts yields minutes*60 + seconds and one with exactly three yields
    hours*3600 + minutes*60 + seconds; any other number of fields and any
    field that [int()] rejects yield the fallback [0.0]; nothing is raised.
    A field of plain decimal digits is accepted with its decimal value, and
    ["05:30"], ["01:02:03"], ["bad"] give 330, 3723 and the fallback. *)
Theorem timecode_parsing (time_str : str) :
  (exists s, _time_to_seconds time_str = inr s)
  /\ (forall p0 p1 minutes seconds,
        split COLON (strip time_str) = [p0; p1] ->
        PyInt.int p0 = inr minutes -> PyInt.int p1 = inr seconds ->
        _time_to_seconds time_str = inr (Seconds (minutes * 60 + seconds)))
  /\ (forall p0 p1 p2 hours minutes seconds,
        split COLON (strip time_str) = [p0; p1; p2] ->
        PyInt.int p0 = inr hours -> PyInt.int p1 = inr minutes ->
        PyInt.int p2 = inr seconds ->
        _time_to_seconds time_str
        = inr (Seconds (hours * 3600 + minutes * 60 + seconds)))
  /\ (length (split COLON (strip time_str)) <> 2%nat ->
      length (split COLON (strip time_str)) <> 3%nat ->
      _time_to_seconds time_str = inr Fallback)
  /\ (forall p, In p (split COLON (strip time_str)) ->
                (exists e, PyInt.int p = inl e) ->
                _time_to_seconds time_str = inr Fallback)
  /\ (forall ds, plain_digits ds = true ->
                 PyInt.int ds = inr (PyInt.digits_value ds))
  /\ _time_to_seconds (lit "05:30") = inr (Seconds 330)
  /\ _time_to_seconds (lit "01:02:03") = inr (Seconds 3723)
  /\ _time_to_seconds (lit "bad") = inr Fallback
  /\ seconds_value Fallback = 0.
Proof.
  split; [apply time_to_seconds_total|].
  split.
  { intros p0 p1 m s E E0 E1.
    apply (time_to_seconds_fields time_str [m; s]); [now left|].
    rewrite E. simpl. now rewrite E0, E1. }
  split.
  { intros p0 p1 p2 h m s E E0 E1 E2.
    apply (time_to_seconds_fields time_str [h; m; s]); [now right|].
    rewrite E. simpl. now rewrite E0, E1, E2. }
  split; [apply time_to_seconds_bad_count|].
  split; [apply time_to_seconds_bad_field|].
  split; [apply int_plain_digits|].
  repeat split; vm_compute; reflexivity.
Qed.

Lemma timecode_parsing_witness :
  _time_to_seconds (lit " 7:05 ") = inr (Seconds 425)
  /\ _time_to_seconds (lit "1:00:07") = inr (Seconds 3607)
  /\ _time_to_seconds (lit "1:2:3:4") = inr Fallback
  /\ _time_to_seconds (lit "1:2.5") = inr Fallback
  /\ PyInt.int (lit "0042") = inr 42.
Proof.
  split; [|split; [|split; [|split]]].
  - destruct (timecode_parsing (lit " 7:05 ")) as (_ & H & _).
    apply (H (lit "7") (lit "05") 7 5); vm_compute; reflexivity.
  - destruct (timecode_parsing (lit "1:00:07")) as (_ & _ & H & _).
    apply (H (lit "1") (lit "00") (lit "07") 1 0 7); vm_compute; reflexivity.
  - destruct (timecode_parsing (lit "1:2:3:4")) as (_ & _ & _ & H & _).
    apply H; vm_compute; discriminate.
  - destruct (timecode_parsing (lit "1:2.5")) as (_ & _ & _ & _ & H & _).
    apply (H (lit "2.5")).
    + vm_compute. right. left. reflexivity.
    + exists ValueError. vm_compute. reflexivity.
  - destruct (timecode_parsing []) as (_ & _ & _ & _ & _ & H & _).
    apply (H (lit "0042")). vm_compute. reflexivity.
Defined.

(** A field that denotes a negative number does not give the fallback:
    ["00:-5"] has the field ["-5"], which [int()] reads as -5, and the
    result is -5 seconds. *)
Lemma negative_field_counterexample :
  ~ (forall t p z,
        In p (split COLON (strip t)) -> PyInt.int p = inr z -> z < 0 ->
        _time_to_seconds t = inr Fallback
        /\ forall s, _time_to_seconds t = inr s -> 0 <= seconds_value s).
Proof.
  intros H.
  destruct (H (lit "00:-5") (lit "-5") (-5)) as [E _].
  - vm_compute. right. left. reflexivity.
  - vm_compute. reflexivity.
  - lia.
  - vm_compute in E. discriminate.
Qed.

(** C9, as the code has it.  A minus sign before the digits of a field is
    read by [int()] as a negative integer, so a timecode with two or three
    integer fields, negative or not, is one of the two accepted shapes and
    yields the value of its formula, which can be negative: ["00:-5"] yields
    -5 and ["-1:30"] yields -30 seconds. *)
Theorem negative_fields_are_parsed :
  (forall ds, plain_digits ds = true ->
              PyInt.int ("-"%char :: ds) = inr (- PyInt.digits_value ds))
  /\ (forall t zs,
        (length zs = 2 \/ length zs = 3)%nat ->
        map PyInt.int (split COLON (strip t)) = map inr zs ->
        _time_to_seconds t = inr (Seconds (timecode_value zs)))
  /\ _time_to_seconds (lit "00:-5") = inr (Seconds (-5))
  /\ _time_to_seconds (lit "-1:30") = inr (Seconds (-30)).
Proof.
  split; [apply int_minus_digits|].
  split; [intros t zs; apply time_to_seconds_fields|].
  split; vm_compute; reflexivity.
Qed.

Lemma negative_fields_are_parsed_witness :
  PyInt.int (lit "-15") = inr (-15)
  /\ _time_to_seconds (lit "0:-1:-30") = inr (Seconds (-90)).
Proof.
  destruct negative_fields_are_parsed as (H1 & H2 & _).
  split.
  - apply (H1 (lit "15")). vm_compute. reflexivity.
  - apply (H2 (lit "0:-1:-30") [0; -1; -30]).
    + right. reflexivity.
    + vm_compute. reflexivity.
Defined.

End TimecodeClaims.

Section CutLoopFacts.

Context {World : Type} `{C : Collaborators World}.

(** One guarded iteration of the loop: no job, or one call to the cutter
    whose failure or exception leaves [split_files] as it was. *)
Lemma cut_step (input_file output_path today : str) (segment : Segment)
  (split_files : list str) (st : State World) :
  try_except (cut_body input_file output_path today segment split_files)
             (fun _ => ret split_files) st =
  match job_of input_file output_path today segment with
  | None => (inr split_files, st)
  | Some cmd =>
      let (r, w) := subprocess_run (world st) cmd in
      (inr (if succeeded r then split_files ++ [cmd_output cmd]
            else split_files),
       mkState w (trace st ++ [EvCut cmd r]))
  end.
Proof.
  unfold try_except, cut_body, job_of, bind, lift, ret, run_process.
  destruct (_time_to_seconds (start_time segment)) as [e|s]; [reflexivity|].
  destruct (_time_to_seconds (end_time segment)) as [e|e']; [reflexivity|].
  destruct (seconds_sub e' s) as [e|d]; [reflexivity|].
  destruct (pynum_le0 d); [reflexivity|].
  simpl cmd_output.
  destruct (subprocess_run (world st) _) as [[e|code] w]; [reflexivity|].
  destruct code; reflexivity.
Qed.

Lemma cut_loop_cons (input_file output_path today : str) (segment : Segment)
  (rest : list Segment) (split_files : list str) (st : State World) :
  cut_loop input_file output_path today (segment :: rest) split_files st =
  match try_except
          (cut_body input_file output_path today segment split_files)
          (fun _ => ret split_files) st with
  | (inr files, st') => cut_loop input_file output_path today rest files st'
  | (inl e, st') => (inl e, st')
  end.
Proof. reflexivity. Qed.

(** The loop runs the planned jobs in order, each in the world the previous
    one left, and returns the paths of those that succeeded. *)
Lemma cut_loop_spec (input_file output_path today : str)
  (segments : list Segment) (split_files : list str) (st : State World) :
  cut_loop input_file output_path today segments split_files st =
  let jobs := plan input_file output_path today segments in
  let (rs, w) := outcomes (world st) jobs in
  (inr (split_files ++ produced jobs rs),
   mkState w (trace st ++ map cut_event (combine jobs rs))).
Proof.
  revert split_files st.
  induction segments as [|segment rest IH]; intros split_files st.
  - simpl. rewrite !app_nil_r. now destruct st.
  - rewrite cut_loop_cons, cut_step. unfold plan. simpl filter_map.
    fold (plan input_file output_path today rest).
    destruct (job_of input_file output_path today segment) as [cmd|].
    + simpl outcomes.
      destruct (subprocess_run (world st) cmd) as [r w] eqn:Er.
      rewrite IH. cbv zeta. simpl world. simpl trace.
      destruct (outcomes w (plan input_file output_path today rest))
        as [rs w'].
      unfold produced. simpl combine. simpl filter.
      change (succeeded (snd (cmd, r))) with (succeeded r).
      destruct (succeeded r); simpl map; rewrite <- ?app_assoc; reflexivity.
    + apply IH.
Qed.



Lemma job_of_positive (input_file output_path today : str) (s : Segment) :
  positive_duration s = true <->
  exists cmd, job_of input_file output_path today s = Some cmd.
Proof.
  unfold positive_duration, duration_of, job_of.
  destruct (_time_to_seconds (start_time s)) as [e|a];
    [split; [discriminate|intros [? ?]; discriminate]|].
  destruct (_time_to_seconds (end_time s)) as [e|b];
    [split; [discriminate|intros [? ?]; discriminate]|].
  destruct (seconds_sub b a) as [e|d];
    [split; [discriminate|intros [? ?]; discriminate]|].
  destruct (pynum_le0 d); simpl; split; try discriminate.
  - intros [? ?]; discriminate.
  - intros _. eexists. reflexivity.
  - reflexivity.
Qed.

Lemma job_of_not_positive (input_file output_path today : str) (s : Segment) :
  positive_duration s = false ->
  job_of input_file output_path today s = None.
Proof.
  intros H. destruct (job_of input_file output_path today s) eqn:E;
    [|reflexivity].
  assert (positive_duration s = true).
  { apply (job_of_positive input_file output_path today). now exists c. }
  congruence.
Qed.



End CutLoopFacts.

Section DateFacts.

Lemma forallb_cons_eq {A : Type} (f : A -> bool) (x : A) (l : list A) :
  forallb f (x :: l) = f x && forallb f l.
Proof. reflexivity. Qed.

Lemma digit_char_isdigit (d : nat) : d < 10 -> isdigit (digit_char d) = true.
Proof.
  intros H. do 10 (destruct d as [|d]; [reflexivity|]). lia.
Qed.

Lemma decimal_digits_S (fuel n : nat) (acc : str) :
  decimal_digits (S fuel) n acc =
  if n / 10 =? 0 then digit_char (n mod 10) :: acc
  else decimal_digits fuel (n / 10) (digit_char (n mod 10) :: acc).
Proof. reflexivity. Qed.

Lemma decimal_digits_isdigit (fuel n : nat) (acc : str) :
  forallb isdigit acc = true ->
  forallb isdigit (decimal_digits fuel n acc) = true.
Proof.
  revert n acc. induction fuel as [|fuel IH]; intros n acc H; [exact H|].
  rewrite decimal_digits_S.
  assert (H' : forallb isdigit (digit_char (n mod 10) :: acc) = true).
  { rewrite forallb_cons_eq, H, digit_char_isdigit; [reflexivity|].
    apply Nat.mod_upper_bound. discriminate. }
  destruct (n / 10 =? 0); [exact H'|now apply IH].
Qed.

Lemma decimal_four_digits (y : nat) :
  1000 <= y < 10 * 1000 -> length (decimal y) = 4.
Proof.
  intros [Hlo Hhi]. unfold decimal.
  replace (S y) with (S (S (S (S (y - 3))))) by lia.
  assert (H1 : (y / 10 =? 0) = false).
  { apply Nat.eqb_neq.
    pose proof (Nat.div_le_lower_bound y 10 100). lia. }
  assert (H2 : (y / 10 / 10 =? 0) = false).
  { apply Nat.eqb_neq. rewrite Nat.Div0.div_div.
    pose proof (Nat.div_le_lower_bound y (10 * 10) 10). lia. }
  assert (H3 : (y / 10 / 10 / 10 =? 0) = false).
  { apply Nat.eqb_neq. rewrite !Nat.Div0.div_div.
    pose proof (Nat.div_le_lower_bound y (10 * (10 * 10)) 1). lia. }
  assert (H4 : (y / 10 / 10 / 10 / 10 =? 0) = true).
  { apply Nat.eqb_eq. rewrite !Nat.Div0.div_div.
    apply Nat.div_small. lia. }
  rewrite decimal_digits_S, H1, decimal_digits_S, H2, decimal_digits_S, H3,
    decimal_digits_S, H4.
  reflexivity.
Qed.


End DateFacts.

Section NameFacts.

Lemma output_filename_is_clip_name (event_id today : str) :
  output_filename event_id today = clip_name event_id today.
Proof. reflexivity. Qed.



End NameFacts.

Section PipelineClaims.

Context {World : Type} `{C : Collaborators World}.



Lemma split_with_ffmpeg_spec (input_path : str) (segments : list Segment)
  (output_dir : str) (st : State World) :
  let today := strftime_Ymd (now (world st)) in
  let jobs := plan (path_str input_path) (path_str output_dir) today segments in
  _split_video_with_ffmpeg input_path segments output_dir st
  = (inr (produced jobs (fst (outcomes (world st) jobs))),
     mkState (snd (outcomes (world st) jobs))
       (trace st
        ++ map cut_event (combine jobs (fst (outcomes (world st) jobs))))).
Proof.
  intros today jobs. unfold _split_video_with_ffmpeg.
  rewrite cut_loop_spec. cbv zeta. fold today. fold jobs.
  now destruct (outcomes (world st) jobs).
Qed.


Lemma job_of_output (input_file output_path today : str) (s : Segment)
  (cmd : Cmd) :
  job_of input_file output_path today s = Some cmd ->
  cmd_output cmd = path_join output_path (clip_name (event_id s) today).
Proof.
  unfold job_of.
  destruct (_time_to_seconds (start_time s)); [discriminate|].
  destruct (_time_to_seconds (end_time s)); [discriminate|].
  destruct (seconds_sub _ _); [discriminate|].
  destruct (pynum_le0 _); [discriminate|].
  now intros [= <-].
Qed.

Lemma plan_outputs (input_file output_path today : str)
  (segments : list Segment) :
  map cmd_output (plan input_file output_path today segments) =
  map (fun s => path_join output_path (clip_name (event_id s) today))
      (filter positive_duration segments).
Proof.
  unfold plan. induction segments as [|s rest IH]; [reflexivity|].
  simpl. destruct (positive_duration s) eqn:E.
  - apply (job_of_positive input_file output_path today) in E as [cmd E].
    simpl. rewrite E. simpl. rewrite IH.
    now rewrite (job_of_output _ _ _ _ _ E).
  - now rewrite (job_of_not_positive input_file output_path today s E).
Qed.




(** C8. When the input path does not exist the run fails at once with the
    input-not-found error (inside the error every failure of the run is
    wrapped in), and the state is as it was: no directory was made, the
    analyzer was not called. *)
Theorem missing_input_is_fatal (input_video_path : str)
  (output_dir : option str) (st : State World) :
  path_exists (world st) input_video_path = false ->
  split_video input_video_path output_dir st
  = (inl (VideoSplitterError
            (SplitFailed (VideoSplitterError (InputNotFound input_video_path)))),
     st).
Proof.
  intros H. unfold split_video, try_except, bind, raise.
  rewrite H. reflexivity.
Qed.

(** C10. When the run has reached the manifest, whatever the writer does the
    run returns a result: the manifest path is the empty string when the
    writer raised and the path of the file otherwise, and the other fields
    are the same in both cases. *)
Theorem manifest_failure_is_swallowed (input_video_path : str)
  (output_dir : option str) (st st2 st3 : State World) (w1 w4 : World)
  (event_segments : list Segment) (files : list str) (outcome : Exn + unit) :
  let dir := match output_dir with None => default_dir | Some d => d end in
  let csv_path :=
    path_join (path_str dir)
      (lit "video_segments_" ++ strftime_Ymd_HMS (now (world st3))
       ++ lit ".csv") in
  path_exists (world st) input_video_path = true ->
  mkdir (world st) dir = (inr tt, w1) ->
  _analyze_video (path_str input_video_path)
    (mkState w1 (trace st ++ [EvMkdir dir])) = (inr event_segments, st2) ->
  event_segments <> [] ->
  _split_video_with_ffmpeg (path_str input_video_path) event_segments
    (path_str dir) st2 = (inr files, st3) ->
  write_csv (world st3) csv_path event_segments = (outcome, w4) ->
  split_video input_video_path output_dir st
  = (inr (mkResult (path_str input_video_path) (path_str dir)
            (length event_segments) files
            (match outcome with inr _ => csv_path | inl _ => [] end)
            event_segments),
     mkState w4 (trace st3 ++ [EvWriteCsv csv_path event_segments])).
Proof.
  intros dir csv_path Hex Hmk Han Hne Hsp Hwr.
  unfold split_video, try_except, bind, ret, raise.
  rewrite Hex. change (negb true) with false. cbv beta iota zeta. fold dir.
  rewrite Hmk, Han.
  destruct event_segments as [|s segs]; [congruence|].
  change (is_nil (s :: segs)) with false. cbv beta iota.
  rewrite Hsp.
  unfold _save_segments_to_csv. fold csv_path. rewrite Hwr.
  destruct outcome; reflexivity.
Qed.

End PipelineClaims.




Lemma missing_input_is_fatal_witness :
  split_video (lit "missing.mp4") None sample_state
  = (inl (VideoSplitterError
            (SplitFailed
               (VideoSplitterError (InputNotFound (lit "missing.mp4"))))),
     sample_state)
  /\ hd_error (trace (snd (split_video (lit "in.mp4") None sample_state)))
     = Some (EvMkdir (lit "output")).
Proof.
  split.
  - apply missing_input_is_fatal. vm_compute. reflexivity.
  - vm_compute. reflexivity.
Defined.

Lemma manifest_failure_is_swallowed_witness :
  fst (split_video (lit "in.mp4") None sample_state)
  = inr (mkResult (lit "in.mp4") (lit "output") 3 [] [] sample_records).
Proof.
  rewrite (manifest_failure_is_swallowed (lit "in.mp4") None sample_state
             sample_state2 sample_state3
             (snd (mkdir sample_script (lit "output")))
             (world sample_state3) sample_records []
             (inl (Raised (lit "PermissionError")))).
  - reflexivity.
  - vm_compute. reflexivity.
  - vm_compute. reflexivity.
  - vm_compute. reflexivity.
  - discriminate.
  - vm_compute. reflexivity.
  - vm_compute. reflexivity.
Defined.

(** A segment whose duration cannot be computed: the start is malformed,
    hence the float [0.0], and the end is an [int] too large for a float, so
    the subtraction raises; the loop catches it and the segment has no job. *)
Example uncomputable_duration_gives_no_job :
  let s := mkSegment (lit "ev3") (lit "bad")
             (repeat "9"%char 400 ++ lit ":00:00") in
  duration_of s = inl OverflowError
  /\ positive_duration s = false /\ nonpositive_duration s = false
  /\ job_of (lit "in.mp4") (lit "out") (lit "20250601") s = None.
Proof. vm_compute. repeat split; reflexivity. Qed.

(** The end-to-end scenario: three segments are extracted, the second gives
    no job, the first and the third are cut for 90 and 105 seconds, and the
    manifest has the three segments. *)
Example end_to_end_scenario :
  let st := mkState (mkScript [lit "in.mp4"] sample_clock
                       (inr (unlines ["```csv"; "event_id,start_time,end_time";
                                      "ev1,00:00,01:30"; "ev2,01:30,01:10";
                                      "ev3,02:00,03:45"; "```"]%string))
                       [] true) [] in
  let run := split_video (lit "in.mp4") (Some (lit "clips")) st in
  fst run
  = inr (mkResult (lit "in.mp4") (lit "clips") 3
           [lit "clips/ev1_20250601.mp4"; lit "clips/ev3_20250601.mp4"]
           (lit "clips/video_segments_20250601_123005.csv") sample_records)
  /\ map cmd_t (cut_commands (trace (snd run))) = [PyInt 90; PyInt 105].
Proof. vm_compute. split; reflexivity. Qed.

Section RecordInvariant.

Lemma split_fields_no_sep (c : ascii) (s : str) :
  Forall (fun f => existsb (Ascii.eqb c) f = false) (split c s).
Proof.
  induction s as [|a s IH]; [repeat constructor|].
  simpl. destruct (Ascii.eqb a c) eqn:E.
  - constructor; [reflexivity|exact IH].
  - destruct (split c s) as [|f fs]; [repeat constructor; simpl|].
    + rewrite Ascii.eqb_sym, E. reflexivity.
    + inversion IH; subst. constructor; [|assumption].
      rewrite existsb_cons_eq, Ascii.eqb_sym, E. assumption.
Qed.

Lemma existsb_strip (f : ascii -> bool) (l : str) :
  existsb f l = false -> existsb f (strip l) = false.
Proof. intros H. unfold strip. now apply existsb_lstrip, existsb_rstrip. Qed.

Lemma existsb_sublist_field (c x : ascii) (s f : str) :
  In f (split c s) -> existsb (Ascii.eqb x) s = false ->
  existsb (Ascii.eqb x) f = false.
Proof.
  revert f. induction s as [|a s IH]; intros f Hin Hs.
  - destruct Hin as [<-|[]]. reflexivity.
  - rewrite existsb_cons_eq in Hs. apply orb_false_iff in Hs as [Ha Hs].
    simpl in Hin. destruct (Ascii.eqb a c).
    + destruct Hin as [<-|Hin]; [reflexivity|now apply IH].
    + destruct (split c s) as [|g gs] eqn:Eg.
      * destruct Hin as [<-|[]]. now rewrite existsb_cons_eq, Ha.
      * destruct Hin as [<-|Hin].
        -- rewrite existsb_cons_eq, Ha. apply IH; [now left|exact Hs].
        -- apply IH; [now right|exact Hs].
Qed.

Lemma clean_field_of_strip (line f : str) :
  In f (split COMMA line) ->
  existsb (Ascii.eqb LF) line = false ->
  strip f <> [] -> clean_field (strip f).
Proof.
  intros Hin Hlf Hne. split; [exact Hne|]. split; [apply strip_idem|]. split.
  - apply existsb_strip.
    pose proof (split_fields_no_sep COMMA line) as H.
    rewrite Forall_forall in H. now apply H.
  - apply existsb_strip. now apply (existsb_sublist_field COMMA LF line).
Qed.

Lemma row_record_clean (line : str) (seg : Segment) :
  existsb (Ascii.eqb LF) line = false ->
  row_record line = Some seg -> clean_segment seg.
Proof.
  intros Hlf. unfold row_record.
  destruct (split COMMA line) as [|f0 [|f1 [|f2 fs]]] eqn:E; try discriminate.
  destruct (strip f0) eqn:E0; [discriminate|].
  destruct (strip f1) eqn:E1; [discriminate|].
  destruct (strip f2) eqn:E2; [discriminate|].
  simpl. intros [= <-]. rewrite <- E0, <- E1, <- E2.
  repeat split; simpl;
    try (apply (clean_field_of_strip line); [rewrite E; simpl; tauto|exact Hlf|congruence]).
Qed.

Lemma filter_map_Forall {A B : Type} (f : A -> option B) (P : A -> Prop)
  (Q : B -> Prop) (l : list A) :
  (forall x y, P x -> f x = Some y -> Q y) ->
  Forall P l -> Forall Q (filter_map f l).
Proof.
  intros H. induction 1 as [|x l Hx _ IH]; [constructor|].
  simpl. destruct (f x) eqn:E; [constructor; eauto|exact IH].
Qed.

Lemma Forall_tl {A : Type} (P : A -> Prop) (l : list A) :
  Forall P l -> Forall P (tl l).
Proof. destruct 1; [constructor|assumption]. Qed.

Lemma parse_cases (response : str) :
  _parse_csv_response response = []
  \/ _parse_csv_response response =
     filter_map row_record (tl (split LF (strip (csv_content response)))).
Proof.
  destruct (Nat.lt_ge_cases
              (length (split LF (strip (csv_content response)))) 2) as [H|H].
  - left. now apply parse_short_table.
  - right. now apply parse_table_rows.
Qed.

(** X1. Every record the extractor returns has three fields that are not
    empty, are trimmed, and contain neither a comma nor a line feed. *)
Theorem extracted_records_are_clean (response : str) :
  Forall clean_segment (_parse_csv_response response).
Proof.
  destruct (parse_cases response) as [->| ->]; [constructor|].
  apply (filter_map_Forall row_record
           (fun l => existsb (Ascii.eqb LF) l = false)).
  - intros line seg Hl Hr. now apply (row_record_clean line).
  - apply Forall_tl. apply split_fields_no_sep.
Qed.

End RecordInvariant.

Section FallbackRecords.

Lemma strip_fixed_lstrip (l : str) : strip l = l -> lstrip l = l.
Proof.
  intros H. rewrite <- H at 1. unfold strip. rewrite lstrip_idem. exact H.
Qed.

Lemma strip_fixed_rstrip (l : str) : strip l = l -> rstrip l = l.
Proof.
  intros H. rewrite <- H at 1. unfold strip.
  rewrite <- rstrip_lstrip, rstrip_idem, rstrip_lstrip. exact H.
Qed.

Lemma map_last_id {A : Type} (g : A -> A) (l : list A) :
  Forall (fun x => g x = x) l -> map_last g l = l.
Proof.
  induction l as [|x [|y l] IH]; intros H; [reflexivity| |].
  - inversion H; subst. simpl. congruence.
  - inversion H; subst.
    change (map_last g (x :: y :: l)) with (x :: map_last g (y :: l)).
    now rewrite IH.
Qed.

Lemma capture_rows_Forall (P : str -> Prop) (lines : list str) :
  Forall P lines ->
  Forall (fun l => P l /\ is_empty l = false) (capture_rows lines).
Proof.
  induction 1 as [|l rest Hl _ IH]; [constructor|].
  simpl. destruct (is_empty l) eqn:E; [exact IH|].
  destruct (comma_shaped l); [|constructor].
  constructor; [split; assumption|exact IH].
Qed.

(** The lines of a table made of trimmed lines that are not empty and have
    no line feed are these lines. *)
Lemma lines_of_trimmed_table (h : str) (rows : list str) :
  Forall (fun l => (strip l = l /\ existsb (Ascii.eqb LF) l = false)
                   /\ is_empty l = false) (h :: rows) ->
  split LF (strip (join LF (h :: rows))) = h :: rows.
Proof.
  intros H.
  assert (Htext : Forall (fun l => has_text l = true) (h :: rows)).
  { eapply Forall_impl; [|exact H]. intros l [[Hs _] He].
    pose proof (strip_empty l) as E. rewrite Hs, He in E.
    now destruct (has_text l). }
  rewrite (strip_join h rows Htext).
  assert (Hr : map_last rstrip (h :: rows) = h :: rows).
  { apply map_last_id. eapply Forall_impl; [|exact H].
    intros l [[Hs _] _]. now apply strip_fixed_rstrip. }
  rewrite Hr. simpl map_first.
  inversion H as [|? ? [[Hs _] _] _]; subst.
  rewrite (strip_fixed_lstrip h Hs).
  apply split_join; [discriminate|].
  eapply Forall_impl; [|exact H]. now intros l [[_ Hlf] _].
Qed.

Lemma trimmed_lines (s : str) :
  Forall (fun l => strip l = l /\ existsb (Ascii.eqb LF) l = false)
         (map strip (split LF s)).
Proof.
  apply Forall_map.
  eapply Forall_impl; [|apply (split_fields_no_sep LF s)].
  intros l Hl. split; [apply strip_idem|now apply existsb_strip].
Qed.

(** X2. Without a fenced block the records are those of the table-shaped
    lines that follow the first header line, up to the first line that is
    neither blank nor table-shaped; the header line gives no record. *)
Theorem fallback_records (response : str) (pre : list str) (h : str)
  (rest : list str) :
  Re.search_csv_block response = None ->
  map strip (split LF (strip response)) = pre ++ h :: rest ->
  (forall l, In l pre -> is_header_line l = false) ->
  is_header_line h = true ->
  _parse_csv_response response = filter_map row_record (capture_rows rest).
Proof.
  intros Hno E Hpre Hh.
  assert (Hc : csv_content response = join LF (h :: capture_rows rest)).
  { rewrite (fallback_is_capture response Hno), E.
    now rewrite (capture_table_at_header pre h rest Hpre Hh). }
  pose proof (trimmed_lines (strip response)) as Hl. rewrite E in Hl.
  apply Forall_app in Hl as [_ Hl]. inversion Hl as [|? ? Hhl Hrest]; subst.
  assert (Hall : Forall (fun l => (strip l = l
                                   /\ existsb (Ascii.eqb LF) l = false)
                                  /\ is_empty l = false)
                        (h :: capture_rows rest)).
  { constructor.
    - split; [exact Hhl|]. now apply header_line_shape in Hh.
    - now apply capture_rows_Forall. }
  pose proof (lines_of_trimmed_table h (capture_rows rest) Hall) as Hlines.
  destruct (capture_rows rest) as [|r rows] eqn:Er.
  - apply parse_short_table. rewrite Hc, Hlines. simpl. lia.
  - rewrite parse_table_rows; rewrite Hc, Hlines; [reflexivity|simpl; lia].
Qed.

Lemma fallback_records_witness :
  _parse_csv_response sample_unfenced
  = [mkSegment (lit "ev1") (lit "00:00") (lit "01:30");
     mkSegment (lit "ev2") (lit "01:30") (lit "01:10")].
Proof.
  rewrite (fallback_records sample_unfenced
             (map lit ["Segments follow"; "a,b,c"]%string)
             (lit "Event_ID,Start_Time,End_Time")
             (map lit ["ev1,00:00,01:30"; ""; "ev2 ,01:30,01:10"; ",1,2";
                       "x,y"; "That is all."; "ev9,1,2"]%string)).
  - vm_compute. reflexivity.
  - vm_compute. reflexivity.
  - vm_compute. reflexivity.
  - intros l [<-|[<-|[]]]; vm_compute; reflexivity.
  - vm_compute. reflexivity.
Defined.

End FallbackRecords.

Section PatternFacts.

Lemma lazy_group_sound (s g : str) :
  Re.lazy_group s = Some g -> exists post, s = g ++ Re.fence_close ++ post.
Proof.
  revert g. induction s as [|c s IH]; intros g; rewrite lazy_group_unfold.
  - destruct (startswith Re.fence_close []) eqn:E; [discriminate E|discriminate].
  - destruct (startswith Re.fence_close (c :: s)) eqn:E.
    + intros [= <-]. apply startswith_iff in E as [post ->]. now exists post.
    + destruct (Re.lazy_group s) as [g'|]; [|discriminate].
      simpl. intros [= <-]. destruct (IH g' eq_refl) as [post ->].
      now exists post.
Qed.

Lemma lazy_group_complete (g post : str) :
  exists g', Re.lazy_group (g ++ Re.fence_close ++ post) = Some g'
             /\ length g' <= length g.
Proof.
  induction g as [|c g IH].
  - exists []. split; [reflexivity|apply Nat.le_refl].
  - destruct IH as (g' & E & Hl). rewrite <- app_comm_cons.
    rewrite lazy_group_unfold.
    destruct (startswith Re.fence_close (c :: g ++ Re.fence_close ++ post)).
    + exists []. split; [reflexivity|apply Nat.le_0_l].
    + rewrite E. exists (c :: g'). split; [reflexivity|simpl; lia].
Qed.

(** The lazy group is the shortest text before a closing fence. *)
Lemma lazy_group_shortest (s g g' post' : str) :
  Re.lazy_group s = Some g -> s = g' ++ Re.fence_close ++ post' ->
  length g <= length g'.
Proof.
  intros H ->. destruct (lazy_group_complete g' post') as (g0 & E & Hl).
  congruence.
Qed.

Lemma after_open_sound (s g : str) :
  Re.after_open s = Some g ->
  exists ws post, forallb isspace ws = true
                  /\ s = ws ++ LF :: g ++ Re.fence_close ++ post.
Proof.
  revert g. induction s as [|c s IH]; intros g; [discriminate|].
  rewrite after_open_unfold. destruct (isspace c) eqn:Ec; [|discriminate].
  destruct (Re.after_open s) as [g0|] eqn:E.
  - intros [= <-]. destruct (IH g0 eq_refl) as (ws & post & Hws & ->).
    exists (c :: ws), post. simpl. now rewrite Ec, Hws.
  - destruct (Ascii.eqb c LF) eqn:El; [|discriminate].
    apply Ascii.eqb_eq in El. subst c. intros H.
    apply lazy_group_sound in H as [post ->]. now exists [], post.
Qed.

Lemma after_open_complete (ws g post : str) :
  forallb isspace ws = true ->
  exists g', Re.after_open (ws ++ LF :: g ++ Re.fence_close ++ post) = Some g'.
Proof.
  induction ws as [|c ws IH]; intros Hws.
  - rewrite app_nil_l, after_open_unfold.
    change (isspace LF) with true. cbv iota.
    destruct (Re.after_open (g ++ Re.fence_close ++ post)) as [g0|];
      [now exists g0|].
    rewrite Ascii.eqb_refl.
    destruct (lazy_group_complete g post) as (g' & E & _). now exists g'.
  - simpl in Hws. apply andb_true_iff in Hws as [Hc Hws].
    destruct (IH Hws) as [g' E]. exists g'.
    rewrite <- app_comm_cons. now rewrite after_open_unfold, Hc, E.
Qed.

Lemma match_here_sound (s g : str) :
  Re.match_here s = Some g ->
  exists ws post, forallb isspace ws = true
                  /\ s = Re.fence_open ++ ws ++ [LF] ++ g
                         ++ Re.fence_close ++ post.
Proof.
  unfold Re.match_here.
  destruct (startswith Re.fence_open s) eqn:E; [|discriminate].
  apply startswith_iff in E as [t ->].
  change (skipn (length Re.fence_open) (Re.fence_open ++ t)) with t.
  intros H. apply after_open_sound in H as (ws & post & Hws & ->).
  now exists ws, post.
Qed.

Lemma search_sound (r g : str) :
  Re.search_csv_block r = Some g ->
  exists pre ws post,
    forallb isspace ws = true
    /\ r = pre ++ Re.fence_open ++ ws ++ [LF] ++ g ++ Re.fence_close ++ post.
Proof.
  induction r as [|c r IH]; rewrite search_unfold.
  - destruct (Re.match_here []) eqn:E; [discriminate E|discriminate].
  - destruct (Re.match_here (c :: r)) as [g0|] eqn:E.
    + intros [= <-]. apply match_here_sound in E as (ws & post & Hws & E).
      exists [], ws, post. now split.
    + intros H. destruct (IH H) as (pre & ws & post & Hws & ->).
      exists (c :: pre), ws, post. now split.
Qed.

Lemma search_complete (pre ws g post : str) :
  forallb isspace ws = true ->
  exists g',
    Re.search_csv_block
      (pre ++ Re.fence_open ++ ws ++ [LF] ++ g ++ Re.fence_close ++ post)
    = Some g'.
Proof.
  intros Hws. induction pre as [|c pre IH].
  - destruct (after_open_complete ws g post Hws) as [g' E].
    exists g'. now apply search_at_fence.
  - destruct IH as [g' E]. rewrite <- app_comm_cons. rewrite search_unfold.
    destruct (Re.match_here _) as [g0|]; [now exists g0|now exists g'].
Qed.

(** X3. The fenced block is found exactly when the response has, somewhere,
    the opening fence, white space, a line feed and, later, a line feed and
    the closing fence; the block found is preceded by such an opening and
    followed by the closing fence. *)
Theorem fenced_block_found_iff (response : str) :
  (Re.search_csv_block response = None <-> ~ has_fenced_block response)
  /\ (forall g, Re.search_csv_block response = Some g ->
        exists pre ws post,
          forallb isspace ws = true
          /\ response = pre ++ Re.fence_open ++ ws ++ [LF] ++ g
                            ++ Re.fence_close ++ post).
Proof.
  split; [|intros g; apply search_sound].
  split.
  - intros H (pre & ws & g & post & Hws & ->).
    destruct (search_complete pre ws g post Hws) as [g' E]. congruence.
  - intros H. destruct (Re.search_csv_block response) as [g|] eqn:E;
      [|reflexivity].
    exfalso. apply H. apply search_sound in E as (pre & ws & post & Hws & E).
    now exists pre, ws, g, post.
Qed.

Lemma fenced_block_found_iff_witness :
  ~ has_fenced_block sample_unfenced
  /\ exists pre ws post,
       forallb isspace ws = true
       /\ sample_fenced = pre ++ Re.fence_open ++ ws ++ [LF]
                              ++ join LF (sample_header :: sample_rows)
                              ++ Re.fence_close ++ post.
Proof.
  split.
  - apply (fenced_block_found_iff sample_unfenced). vm_compute. reflexivity.
  - apply (fenced_block_found_iff sample_fenced). vm_compute. reflexivity.
Defined.

End PatternFacts.

Section TimecodeShape.

Local Open Scope Z_scope.

Lemma lstrip_spaces (ws x : str) :
  forallb isspace ws = true -> lstrip (ws ++ x) = lstrip x.
Proof.
  induction ws as [|c ws IH]; intros H; [reflexivity|].
  simpl in H. apply andb_true_iff in H as [Hc H].
  simpl. rewrite Hc. now apply IH.
Qed.

Lemma rstrip_spaces_only (ws : str) :
  forallb isspace ws = true -> rstrip ws = [].
Proof.
  induction ws as [|c ws IH]; intros H; [reflexivity|].
  simpl in H. apply andb_true_iff in H as [Hc H].
  simpl. now rewrite Hc, (IH H).
Qed.

Lemma rstrip_spaces (x ws : str) :
  forallb isspace ws = true -> rstrip (x ++ ws) = rstrip x.
Proof.
  intros H. induction x as [|c x IH].
  - simpl. now apply rstrip_spaces_only.
  - simpl. now rewrite IH.
Qed.

Lemma strip_spaces (ws1 t ws2 : str) :
  forallb isspace ws1 = true -> forallb isspace ws2 = true ->
  strip (ws1 ++ t ++ ws2) = strip t.
Proof.
  intros H1 H2. unfold strip.
  rewrite app_assoc, (rstrip_spaces (ws1 ++ t) ws2 H2).
  rewrite <- rstrip_lstrip, (lstrip_spaces ws1 t H1).
  apply rstrip_lstrip.
Qed.

Lemma skip_space_spaces (ws x : str) :
  forallb PyInt.int_space ws = true ->
  PyInt.skip_space (ws ++ x) = PyInt.skip_space x.
Proof.
  induction ws as [|c ws IH]; intros H; [reflexivity|].
  simpl in H. apply andb_true_iff in H as [Hc H].
  simpl. rewrite Hc. now apply IH.
Qed.

Lemma drop_trailing_spaces_only (ws : str) :
  forallb PyInt.int_space ws = true -> PyInt.drop_trailing_space ws = [].
Proof.
  induction ws as [|c ws IH]; intros H; [reflexivity|].
  simpl in H. apply andb_true_iff in H as [Hc H].
  simpl. now rewrite Hc, (IH H).
Qed.

Lemma drop_trailing_spaces (x ws : str) :
  forallb PyInt.int_space ws = true ->
  PyInt.drop_trailing_space (x ++ ws) = PyInt.drop_trailing_space x.
Proof.
  intros H. induction x as [|c x IH].
  - simpl. now apply drop_trailing_spaces_only.
  - simpl. now rewrite IH.
Qed.

Lemma drop_trailing_skip (s : str) :
  PyInt.drop_trailing_space (PyInt.skip_space s)
  = PyInt.skip_space (PyInt.drop_trailing_space s).
Proof.
  induction s as [|a s IH]; [reflexivity|].
  simpl. destruct (PyInt.int_space a) eqn:E; simpl.
  - destruct (PyInt.drop_trailing_space s) eqn:Er; simpl.
    + rewrite IH. reflexivity.
    + rewrite E. rewrite IH. reflexivity.
  - rewrite E. simpl. reflexivity.
Qed.

Lemma int_trimmed_eq (a b : str) :
  PyInt.drop_trailing_space (PyInt.skip_space a)
  = PyInt.drop_trailing_space (PyInt.skip_space b) ->
  PyInt.int a = PyInt.int b.
Proof. unfold PyInt.int. now intros ->. Qed.

(** [int()] ignores the white space around the number. *)
Lemma int_spaces (ws1 s ws2 : str) :
  forallb PyInt.int_space ws1 = true -> forallb PyInt.int_space ws2 = true ->
  PyInt.int (ws1 ++ s ++ ws2) = PyInt.int s.
Proof.
  intros H1 H2. apply int_trimmed_eq.
  rewrite (skip_space_spaces ws1 (s ++ ws2) H1).
  rewrite !drop_trailing_skip. now rewrite (drop_trailing_spaces s ws2 H2).
Qed.

Lemma time_to_seconds_of_strip (a b : str) :
  strip a = strip b -> _time_to_seconds a = _time_to_seconds b.
Proof.
  intros H. unfold _time_to_seconds, time_to_seconds_body. now rewrite H.
Qed.

(** X4. White space around a timecode is ignored, and so is the white space
    [int()] accepts around a field. *)
Theorem timecode_ignores_outer_space (ws1 t ws2 : str) :
  forallb isspace ws1 = true -> forallb isspace ws2 = true ->
  _time_to_seconds (ws1 ++ t ++ ws2) = _time_to_seconds t
  /\ (forall f, forallb PyInt.int_space ws1 = true ->
                forallb PyInt.int_space ws2 = true ->
                PyInt.int (ws1 ++ f ++ ws2) = PyInt.int f).
Proof.
  intros H1 H2. split.
  - apply time_to_seconds_of_strip. now apply strip_spaces.
  - intros f. apply int_spaces.
Qed.

Lemma timecode_ignores_outer_space_witness :
  _time_to_seconds (lit "  " ++ lit "01:30" ++ [LF])
  = _time_to_seconds (lit "01:30")
  /\ PyInt.int (lit "  " ++ lit "30" ++ [LF]) = PyInt.int (lit "30").
Proof.
  destruct (timecode_ignores_outer_space (lit "  ") (lit "01:30") [LF])
    as [H1 H2]; try reflexivity.
  split; [exact H1|]. apply H2; reflexivity.
Defined.

Lemma digit_value_nonneg (c : ascii) :
  isdigit c = true -> 0 <= PyInt.digit_value c.
Proof.
  unfold isdigit, PyInt.digit_value. cbv zeta. intros H.
  apply andb_true_iff in H as [H _]. apply N.leb_le in H.
  generalize dependent (code c). intros n H.
  lia.
Qed.

Lemma digits_fold_nonneg (ds : str) (acc : Z) :
  forallb isdigit ds = true -> 0 <= acc ->
  0 <= fold_left (fun a c => 10 * a + PyInt.digit_value c) ds acc.
Proof.
  revert acc. induction ds as [|c ds IH]; intros acc H Hacc; [exact Hacc|].
  simpl in H. apply andb_true_iff in H as [Hc H].
  pose proof (digit_value_nonneg c Hc) as H0.
  apply (IH (10 * acc + PyInt.digit_value c) H). lia.
Qed.

Lemma digits_value_nonneg (ds : str) :
  plain_digits ds = true -> 0 <= PyInt.digits_value ds.
Proof.
  intros H. apply plain_digits_iff in H as (_ & H & _).
  apply digits_fold_nonneg; [exact H|lia].
Qed.

Lemma plain_digits_text (ds : str) :
  plain_digits ds = true ->
  has_text ds = true /\ lstrip ds = ds /\ rstrip ds = ds
  /\ existsb (Ascii.eqb COLON) ds = false.
Proof.
  intros H. apply plain_digits_iff in H as (Hne & Hd & _).
  destruct ds as [|c ds]; [congruence|].
  assert (Hc : isspace c = false).
  { simpl in Hd. apply andb_true_iff in Hd as [Hc _].
    now apply digit_not_space. }
  repeat split.
  - unfold has_text. rewrite existsb_cons_eq, Hc. reflexivity.
  - simpl. now rewrite Hc.
  - now apply rstrip_digits.
  - now apply digits_no_char.
Qed.

Lemma strip_digit_fields (m rest : str) :
  plain_digits m = true -> rstrip rest = rest -> has_text rest = true ->
  strip (m ++ COLON :: rest) = m ++ COLON :: rest.
Proof.
  intros Hm Hr Ht. destruct (plain_digits_text m Hm) as (_ & Hl & _ & _).
  unfold strip.
  change (m ++ COLON :: rest) with (m ++ [COLON] ++ rest).
  rewrite app_assoc, (rstrip_app (m ++ [COLON]) rest Ht), Hr.
  rewrite <- app_assoc.
  destruct m as [|c m]; [discriminate Hm|].
  simpl in Hl. simpl. destruct (isspace c); [|reflexivity].
  exfalso. apply (f_equal (@length _)) in Hl.
  assert (Hlen : forall s, (length (lstrip s) <= length s)%nat).
  { induction s as [|x s IHs]; [apply Nat.le_refl|].
    simpl. destruct (isspace x); simpl; lia. }
  specialize (Hlen m). simpl in Hl. lia.
Qed.

(** X5. A timecode of two or three fields of plain digits has the value of
    its formula, which is not negative; the fields are not checked against
    60, and the three-field value is the hours plus the two-field value. *)
Theorem digit_timecodes (h m s : str) :
  plain_digits h = true -> plain_digits m = true -> plain_digits s = true ->
  let two := PyInt.digits_value m * 60 + PyInt.digits_value s in
  _time_to_seconds (m ++ COLON :: s) = inr (Seconds two)
  /\ _time_to_seconds (h ++ COLON :: m ++ COLON :: s)
     = inr (Seconds (PyInt.digits_value h * 3600 + two))
  /\ 0 <= two.
Proof.
  intros Hh Hm Hs two.
  destruct (plain_digits_text h Hh) as (_ & _ & _ & Hch).
  destruct (plain_digits_text m Hm) as (Htm & _ & _ & Hcm).
  destruct (plain_digits_text s Hs) as (Hts & _ & Hrs & Hcs).
  assert (E2 : strip (m ++ COLON :: s) = m ++ COLON :: s)
    by now apply strip_digit_fields.
  split; [|split].
  - apply (time_to_seconds_fields _
             [PyInt.digits_value m; PyInt.digits_value s]); [now left|].
    rewrite E2, (split_app_no_sep COLON m s Hcm), (split_no_sep COLON s Hcs).
    simpl. now rewrite !int_plain_digits.
  - replace (PyInt.digits_value h * 3600 + two)
      with (timecode_value [PyInt.digits_value h; PyInt.digits_value m;
                            PyInt.digits_value s])
      by (unfold two; simpl; lia).
    apply time_to_seconds_fields; [now right|].
    rewrite strip_digit_fields.
    + rewrite (split_app_no_sep COLON h _ Hch),
        (split_app_no_sep COLON m s Hcm), (split_no_sep COLON s Hcs).
      simpl. now rewrite !int_plain_digits.
    + exact Hh.
    + now apply strip_fixed_rstrip.
    + rewrite has_text_app, Htm. reflexivity.
  - pose proof (digits_value_nonneg m Hm).
    pose proof (digits_value_nonneg s Hs). unfold two. lia.
Qed.

Lemma digit_timecodes_witness :
  _time_to_seconds (lit "90:75") = inr (Seconds 5475)
  /\ _time_to_seconds (lit "1:90:75") = inr (Seconds 9075).
Proof.
  destruct (digit_timecodes (lit "1") (lit "90") (lit "75"))
    as (H2 & H3 & _); try reflexivity.
  split; [exact H2|exact H3].
Defined.

End TimecodeShape.

Section DurationFacts.

Local Open Scope Z_scope.

(** A conversion to float that succeeds keeps the sign. *)
Lemma float_of_int_sign (z v : Z) :
  float_of_int z = inr v -> Z.sgn v = Z.sgn z.
Proof.
  unfold float_of_int.
  destruct (Z.abs z <? 2 ^ 53) eqn:Esmall; [now intros [= ->]|].
  apply Z.ltb_ge in Esmall.
  set (a := Z.abs z) in *.
  set (sh := Z.log2 a - 52).
  set (q := Z.shiftr a sh).
  set (q' := if (2 ^ (sh - 1) <? a - Z.shiftl q sh)
                || ((a - Z.shiftl q sh =? 2 ^ (sh - 1)) && Z.odd q)
             then q + 1 else q).
  destruct (2 ^ 1024 <=? Z.shiftl q' sh); [discriminate|].
  intros [= <-].
  assert (Hpow : 0 < 2 ^ 53) by (apply Z.pow_pos_nonneg; lia).
  assert (Ha : 0 < a) by lia.
  assert (Hlog : 53 <= Z.log2 a) by (apply Z.log2_le_pow2; lia).
  assert (Hsh : 0 <= sh) by (unfold sh; lia).
  assert (Hq : 1 <= q).
  { unfold q. rewrite Z.shiftr_div_pow2 by exact Hsh.
    assert (0 < 2 ^ sh) by (apply Z.pow_pos_nonneg; lia).
    apply Z.div_le_lower_bound; [assumption|].
    rewrite Z.mul_1_r.
    apply Z.le_trans with (2 ^ Z.log2 a).
    - apply Z.pow_le_mono_r; unfold sh; lia.
    - apply Z.log2_spec. exact Ha. }
  assert (Hq' : 1 <= q') by (unfold q'; destruct (_ || _); lia).
  assert (HV : 0 < Z.shiftl q' sh).
  { rewrite Z.shiftl_mul_pow2 by exact Hsh.
    apply Z.mul_pos_pos; [lia|apply Z.pow_pos_nonneg; lia]. }
  rewrite Z.sgn_mul, (Z.sgn_pos _ HV), Z.mul_1_r. apply Z.sgn_sgn.
Qed.

Lemma float_of_int_small (z : Z) :
  Z.abs z < 2 ^ 53 -> float_of_int z = inr z.
Proof.
  intros H. unfold float_of_int. apply Z.ltb_lt in H. now rewrite H.
Qed.

Lemma sgn_le0 (v z : Z) : Z.sgn v = Z.sgn z -> (v <= 0 <-> z <= 0).
Proof. intros H. destruct v, z; simpl in H; try discriminate; lia. Qed.

(** Whenever the duration is computed, its sign is the sign of the exact
    difference of the two values. *)
Lemma seconds_sub_sign (e s : seconds) (d : pynum) :
  seconds_sub e s = inr d ->
  (pynum_le0 d = true <-> seconds_value e - seconds_value s <= 0).
Proof.
  unfold pynum_le0. rewrite Z.leb_le.
  destruct e as [x|], s as [y|]; simpl.
  - intros [= <-]. reflexivity.
  - destruct (float_of_int x) as [|v] eqn:E; [discriminate|].
    intros [= <-]. simpl. apply float_of_int_sign in E.
    rewrite Z.sub_0_r. now apply sgn_le0.
  - destruct (float_of_int y) as [|v] eqn:E; [discriminate|].
    intros [= <-]. simpl. apply float_of_int_sign in E.
    destruct v, y; simpl in E; try discriminate; lia.
  - intros [= <-]. reflexivity.
Qed.

Lemma seconds_sub_small (e s : seconds) :
  Z.abs (seconds_value e) < 2 ^ 53 -> Z.abs (seconds_value s) < 2 ^ 53 ->
  exists d, seconds_sub e s = inr d
            /\ pynum_value d = seconds_value e - seconds_value s.
Proof.
  intros He Hs. destruct e as [x|], s as [y|]; simpl in *.
  - eexists. split; reflexivity.
  - rewrite (float_of_int_small x He). eexists. split; [reflexivity|simpl; lia].
  - rewrite (float_of_int_small y Hs). eexists. split; [reflexivity|simpl; lia].
  - eexists. split; reflexivity.
Qed.

(** X6. However the float conversion rounds, a duration that is computed is
    zero or less exactly when the end value minus the start value is; the
    subtraction of two values below 2^53 never raises and is exact; only a
    malformed timecode next to an [int] can make it raise. *)
Theorem duration_sign_is_exact (end_seconds start_seconds : seconds) :
  (forall d, seconds_sub end_seconds start_seconds = inr d ->
             (pynum_le0 d = true <->
              seconds_value end_seconds - seconds_value start_seconds <= 0))
  /\ (Z.abs (seconds_value end_seconds) < 2 ^ 53 ->
      Z.abs (seconds_value start_seconds) < 2 ^ 53 ->
      exists d, seconds_sub end_seconds start_seconds = inr d
                /\ pynum_value d
                   = seconds_value end_seconds - seconds_value start_seconds)
  /\ (forall e, seconds_sub end_seconds start_seconds = inl e ->
        e = OverflowError
        /\ ((end_seconds = Fallback
             /\ 2 ^ 53 <= Z.abs (seconds_value start_seconds))
            \/ (start_seconds = Fallback
                /\ 2 ^ 53 <= Z.abs (seconds_value end_seconds)))).
Proof.
  split; [intros d; apply seconds_sub_sign|].
  split; [apply seconds_sub_small|].
  intros e. destruct end_seconds as [x|], start_seconds as [y|]; simpl;
    try discriminate.
  - destruct (float_of_int x) as [e'|v] eqn:E; [|discriminate].
    intros [= <-]. unfold float_of_int in E.
    destruct (Z.abs x <? 2 ^ 53) eqn:Es; [discriminate|].
    apply Z.ltb_ge in Es.
    destruct (2 ^ 1024 <=? _); [|discriminate].
    injection E as <-. split; [reflexivity|]. right. now split.
  - destruct (float_of_int y) as [e'|v] eqn:E; [|discriminate].
    intros [= <-]. unfold float_of_int in E.
    destruct (Z.abs y <? 2 ^ 53) eqn:Es; [discriminate|].
    apply Z.ltb_ge in Es.
    destruct (2 ^ 1024 <=? _); [|discriminate].
    injection E as <-. split; [reflexivity|]. left. now split.
Qed.

Lemma duration_sign_is_exact_witness :
  (exists d, seconds_sub (Seconds 90) Fallback = inr d /\ pynum_value d = 90)
  /\ (pynum_le0 (PyFloat (-30)) = true <-> 0 - 30 <= 0).
Proof.
  split.
  - destruct (duration_sign_is_exact (Seconds 90) Fallback) as (_ & H & _).
    destruct H as (d & H1 & H2); [simpl; lia|simpl; lia|].
    exists d. split; [exact H1|exact H2].
  - destruct (duration_sign_is_exact Fallback (Seconds 30)) as (H & _).
    apply (H (PyFloat (-30))). reflexivity.
Defined.

End DurationFacts.

Section PlanningFacts.

Context {World : Type} `{C : Collaborators World}.

Local Open Scope Z_scope.

(** X7. A malformed timecode counts as zero in the plan: the segment is
    skipped when its end is malformed and its start is not negative, or
    when both are malformed; with a malformed start and an end between zero
    and 2^53 the segment is cut from [0.0] for the length of its end. *)
Theorem malformed_timecodes_in_plan (input_file output_path today : str)
  (segment : Segment) :
  (forall a, _time_to_seconds (start_time segment) = inr (Seconds a) ->
             _time_to_seconds (end_time segment) = inr Fallback ->
             0 <= a ->
             job_of input_file output_path today segment = None)
  /\ (_time_to_seconds (start_time segment) = inr Fallback ->
      _time_to_seconds (end_time segment) = inr Fallback ->
      job_of input_file output_path today segment = None)
  /\ (forall b, _time_to_seconds (start_time segment) = inr Fallback ->
                _time_to_seconds (end_time segment) = inr (Seconds b) ->
                0 < b < 2 ^ 53 ->
                job_of input_file output_path today segment
                = Some (mkCmd ffmpeg_path input_file Fallback (PyFloat b)
                          (path_join output_path
                             (output_filename (event_id segment) today)))).
Proof.
  split; [|split].
  - intros a Hs He Ha. unfold job_of. rewrite Hs, He.
    destruct (seconds_sub Fallback (Seconds a)) as [e|d] eqn:E; [reflexivity|].
    apply seconds_sub_sign in E. simpl in E.
    destruct (pynum_le0 d); [reflexivity|].
    assert (false = true) by (apply E; lia). discriminate.
  - intros Hs He. unfold job_of. now rewrite Hs, He.
  - intros b Hs He Hb. unfold job_of. rewrite Hs, He. simpl seconds_sub.
    rewrite float_of_int_small by lia.
    unfold pynum_le0. simpl pynum_value.
    destruct (b <=? 0) eqn:E; [apply Z.leb_le in E; lia|reflexivity].
Qed.

End PlanningFacts.

Lemma malformed_timecodes_in_plan_witness :
  job_of (lit "in.mp4") (lit "out") (lit "20250601")
    (mkSegment (lit "ev") (lit "01:30") (lit "later")) = None
  /\ job_of (lit "in.mp4") (lit "out") (lit "20250601")
       (mkSegment (lit "ev") (lit "soon") (lit "later")) = None
  /\ job_of (lit "in.mp4") (lit "out") (lit "20250601")
       (mkSegment (lit "ev") (lit "soon") (lit "01:30"))
     = Some (mkCmd (lit "ffmpeg") (lit "in.mp4") Fallback (PyFloat 90)
               (lit "out/ev_20250601.mp4")).
Proof.
  split; [|split].
  - destruct (malformed_timecodes_in_plan (lit "in.mp4") (lit "out")
                (lit "20250601")
                (mkSegment (lit "ev") (lit "01:30") (lit "later")))
      as (H & _).
    apply (H 90%Z); [reflexivity|reflexivity|lia].
  - destruct (malformed_timecodes_in_plan (lit "in.mp4") (lit "out")
                (lit "20250601")
                (mkSegment (lit "ev") (lit "soon") (lit "later")))
      as (_ & H & _).
    apply H; reflexivity.
  - destruct (malformed_timecodes_in_plan (lit "in.mp4") (lit "out")
                (lit "20250601")
                (mkSegment (lit "ev") (lit "soon") (lit "01:30")))
      as (_ & _ & H).
    rewrite (H 90%Z); [reflexivity|reflexivity|reflexivity|].
    split; [lia|]. reflexivity.
Defined.

Section NameSafety.

Lemma sanitize_safe (event_id : str) :
  forallb safe_char (sanitize event_id) = true.
Proof.
  unfold sanitize. induction event_id as [|c s IH]; [reflexivity|].
  simpl map. rewrite forallb_cons_eq, IH, andb_true_r.
  destruct (safe_char c) eqn:E; [exact E|reflexivity].
Qed.

Lemma sanitize_fixed (s : str) :
  forallb safe_char s = true -> sanitize s = s.
Proof.
  unfold sanitize. induction s as [|c s IH]; intros H; [reflexivity|].
  rewrite forallb_cons_eq in H. apply andb_true_iff in H as [Hc H].
  simpl. now rewrite Hc, IH.
Qed.

Lemma digit_is_safe (c : ascii) : isdigit c = true -> safe_char c = true.
Proof.
  destruct c as [[] [] [] [] [] [] [] []]; vm_compute;
    try reflexivity; try discriminate.
Qed.

Lemma safe_not_separator (c : ascii) :
  safe_char c = true ->
  c <> "/"%char /\ c <> "092"%char /\ c <> ":"%char /\ isspace c = false.
Proof.
  destruct c as [[] [] [] [] [] [] [] []]; vm_compute; intros H;
    try discriminate H; repeat split; congruence.
Qed.

Lemma forallb_impl_str (p q : ascii -> bool) (s : str) :
  (forall c, p c = true -> q c = true) ->
  forallb p s = true -> forallb q s = true.
Proof.
  intros H. induction s as [|c s IH]; intros Hs; [reflexivity|].
  rewrite forallb_cons_eq in *. apply andb_true_iff in Hs as [Hc Hs].
  now rewrite (H c Hc), (IH Hs).
Qed.

Lemma strftime_Ymd_digits (t : datetime) :
  forallb isdigit (strftime_Ymd t) = true.
Proof.
  unfold strftime_Ymd. rewrite !forallb_app. unfold decimal.
  rewrite decimal_digits_isdigit by reflexivity.
  unfold two_digits. rewrite !forallb_cons_eq.
  rewrite !digit_char_isdigit; try reflexivity;
    apply Nat.mod_upper_bound; discriminate.
Qed.

(** X8. Whatever the event identifier and the date of the clock, the name
    of a clip is made of word characters, hyphens, underscores and dots
    only: it has no path separator, no colon and no white space; cleaning an
    identifier twice changes nothing more. *)
Theorem clip_name_is_safe (event_id : str) (t : datetime) :
  forallb safe_char (output_filename event_id (strftime_Ymd t)) = true
  /\ (forall c, In c (output_filename event_id (strftime_Ymd t)) ->
                c <> "/"%char /\ c <> "092"%char /\ c <> ":"%char
                /\ isspace c = false)
  /\ sanitize (sanitize event_id) = sanitize event_id.
Proof.
  assert (H : forallb safe_char (output_filename event_id (strftime_Ymd t))
              = true).
  { unfold output_filename. rewrite !forallb_app, sanitize_safe.
    rewrite (forallb_impl_str isdigit safe_char _ digit_is_safe
               (strftime_Ymd_digits t)).
    reflexivity. }
  split; [exact H|]. split.
  - intros c Hc. apply safe_not_separator.
    rewrite forallb_forall in H. now apply H.
  - apply sanitize_fixed, sanitize_safe.
Qed.

End NameSafety.

Section DistinctOutputs.

Context {World : Type} `{C : Collaborators World}.

Lemma clip_name_sanitize (event_id today : str) :
  clip_name event_id today
  = sanitize event_id ++ lit "_" ++ today ++ lit ".mp4".
Proof. reflexivity. Qed.

Lemma NoDup_map_compose {A B D : Type} (k : A -> B) (h : B -> D)
  (l : list A) :
  (forall x y, h x = h y -> x = y) ->
  NoDup (map k l) -> NoDup (map (fun a => h (k a)) l).
Proof.
  intros Hinj. induction l as [|a l IH]; intros H; [constructor|].
  simpl in *. inversion H as [|? ? Hnin Hnd]; subst. constructor.
  - intros Hin. apply Hnin. apply in_map_iff in Hin as (y & Ey & Hy).
    apply Hinj in Ey. rewrite <- Ey. now apply in_map.
  - now apply IH.
Qed.

Lemma produced_incl (jobs : list Cmd) (rs : list (Exn + Z)) (p : str) :
  In p (produced jobs rs) -> In p (map cmd_output jobs).
Proof.
  unfold produced. revert rs.
  induction jobs as [|j jobs IH]; intros rs H; [destruct H|].
  destruct rs as [|r rs]; [destruct H|].
  simpl in H. destruct (succeeded r); simpl in *.
  - destruct H as [H|H]; [now left|right; eauto].
  - right. eauto.
Qed.

Lemma produced_NoDup (jobs : list Cmd) (rs : list (Exn + Z)) :
  NoDup (map cmd_output jobs) -> NoDup (produced jobs rs).
Proof.
  revert rs. induction jobs as [|j jobs IH]; intros rs H.
  - constructor.
  - destruct rs as [|r rs]; [constructor|].
    simpl in H. inversion H as [|? ? Hnin Hnd]; subst.
    unfold produced. simpl. destruct (succeeded r); simpl.
    + constructor; [|now apply IH].
      intros Hin. apply Hnin. now apply (produced_incl jobs rs).
    + now apply IH.
Qed.

(** X9. The output path of a job depends on the event identifier through
    its cleaned form only.  When joining a name to the directory is
    injective and the cleaned identifiers of the segments of positive
    duration are pairwise distinct, the planned outputs and the produced
    files are pairwise distinct; two segments whose identifiers clean to the
    same text are given the same output path. *)
Theorem distinct_ids_give_distinct_files (input_path : str)
  (segments : list Segment) (output_dir : str) (st : State World) :
  let today := strftime_Ymd (now (world st)) in
  let jobs := plan (path_str input_path) (path_str output_dir) today segments in
  ((forall d a b, path_join d a = path_join d b -> a = b) ->
   NoDup (map (fun s => sanitize (event_id s))
              (filter positive_duration segments)) ->
   NoDup (map cmd_output jobs)
   /\ forall files st',
        _split_video_with_ffmpeg input_path segments output_dir st
        = (inr files, st') -> NoDup files)
  /\ (forall s1 s2 c1 c2,
        sanitize (event_id s1) = sanitize (event_id s2) ->
        job_of (path_str input_path) (path_str output_dir) today s1 = Some c1 ->
        job_of (path_str input_path) (path_str output_dir) today s2 = Some c2 ->
        cmd_output c1 = cmd_output c2).
Proof.
  intros today jobs. split.
  - intros Hinj Hnd.
    assert (Hout : NoDup (map cmd_output jobs)).
    { unfold jobs. rewrite plan_outputs.
      apply (NoDup_map_compose (fun s => sanitize (event_id s))
               (fun n => path_join (path_str output_dir)
                           (n ++ lit "_" ++ today ++ lit ".mp4"))).
      - intros x y H. apply Hinj in H. now apply app_inv_tail in H.
      - exact Hnd. }
    split; [exact Hout|].
    intros files st' H. rewrite split_with_ffmpeg_spec in H.
    injection H as <- _. now apply produced_NoDup.
  - intros s1 s2 c1 c2 Hs H1 H2.
    rewrite (job_of_output _ _ _ _ _ H1), (job_of_output _ _ _ _ _ H2).
    now rewrite !clip_name_sanitize, Hs.
Qed.

End DistinctOutputs.

Lemma distinct_ids_give_distinct_files_witness :
  NoDup (match fst (_split_video_with_ffmpeg (lit "in.mp4") sample_segments
                      (lit "out")
                      (mkState (mkScript [] sample_clock (inl ValueError)
                                  [] true) [])) with
         | inr files => files
         | inl _ => []
         end)
  /\ option_map cmd_output
       (job_of (lit "in.mp4") (lit "out") (lit "20250601")
          (mkSegment (lit "A/B") (lit "00:00") (lit "01:30")))
     = option_map cmd_output
         (job_of (lit "in.mp4") (lit "out") (lit "20250601")
            (mkSegment (lit "A B") (lit "00:00") (lit "01:30"))).
Proof.
  set (st := mkState (mkScript [] sample_clock (inl ValueError) [] true) []).
  split.
  - destruct (_split_video_with_ffmpeg (lit "in.mp4") sample_segments
                (lit "out") st) as [[e|files] st'] eqn:E; [constructor|].
    simpl fst. cbv iota.
    destruct (distinct_ids_give_distinct_files (lit "in.mp4") sample_segments
                (lit "out") st) as [H1 _].
    destruct H1 as [_ H1].
    + intros d a b H. now apply app_inv_head in H; apply app_inv_head in H.
    + vm_compute. repeat constructor; simpl; intuition discriminate.
    + apply (H1 files st'). exact E.
  - destruct (distinct_ids_give_distinct_files (lit "in.mp4") sample_segments
                (lit "out") st) as [_ H2].
    destruct (job_of (lit "in.mp4") (lit "out") (lit "20250601")
                (mkSegment (lit "A/B") (lit "00:00") (lit "01:30")))
      as [c1|] eqn:E1; [|vm_compute in E1; discriminate E1].
    destruct (job_of (lit "in.mp4") (lit "out") (lit "20250601")
                (mkSegment (lit "A B") (lit "00:00") (lit "01:30")))
      as [c2|] eqn:E2; [|vm_compute in E2; discriminate E2].
    simpl option_map. f_equal.
    apply (H2 (mkSegment (lit "A/B") (lit "00:00") (lit "01:30"))
              (mkSegment (lit "A B") (lit "00:00") (lit "01:30")) c1 c2).
    + reflexivity.
    + exact E1.
    + exact E2.
Defined.

Section StageFacts.

Context {World : Type} `{C : Collaborators World}.

Lemma save_spec (segments : list Segment) (output_dir : str)
  (st : State World) :
  let csv_path :=
    path_join output_dir
      (lit "video_segments_" ++ strftime_Ymd_HMS (now (world st))
       ++ lit ".csv") in
  _save_segments_to_csv segments output_dir st
  = (inr (match fst (write_csv (world st) csv_path segments) with
          | inr _ => csv_path
          | inl _ => []
          end),
     mkState (snd (write_csv (world st) csv_path segments))
             (trace st ++ [EvWriteCsv csv_path segments])).
Proof.
  intros csv_path. unfold _save_segments_to_csv. fold csv_path.
  destruct (write_csv (world st) csv_path segments) as [[e|u] w]; reflexivity.
Qed.

Lemma analyze_custom_spec (video_path prompt : str) (st : State World) :
  let st' := mkState (snd (gemini_generate (world st) video_path prompt))
                     (trace st ++ [EvAnalyze video_path prompt]) in
  _analyze_video_with_custom_prompt video_path prompt st
  = (match fst (gemini_generate (world st) video_path prompt) with
     | inr text =>
         if truthy text then inr text
         else inl (GeminiAPIError
                     (AnalysisFailed (GeminiAPIError EmptyResponse)))
     | inl e => inl (GeminiAPIError (AnalysisFailed e))
     end, st').
Proof.
  intros st'. unfold _analyze_video_with_custom_prompt, try_except, bind,
    ret, raise. unfold st'.
  destruct (gemini_generate (world st) video_path prompt) as [[e|text] w];
    [reflexivity|].
  simpl. destruct (truthy text); reflexivity.
Qed.

Lemma analyze_spec (video_path : str) (st : State World) :
  let prompt := get_prompt (world st) in
  _analyze_video video_path st
  = if truthy prompt then
      (match fst (gemini_generate (world st) video_path prompt) with
       | inr text =>
           if truthy text then inr (_parse_csv_response text)
           else inl (VideoSplitterError
                       (AnalysisFailed
                          (GeminiAPIError
                             (AnalysisFailed (GeminiAPIError EmptyResponse)))))
       | inl e =>
           inl (VideoSplitterError
                  (AnalysisFailed (GeminiAPIError (AnalysisFailed e))))
       end,
       mkState (snd (gemini_generate (world st) video_path prompt))
               (trace st ++ [EvAnalyze video_path prompt]))
    else (inl (VideoSplitterError
                 (AnalysisError (VideoSplitterError PromptNotFound))), st).
Proof.
  intros prompt. unfold _analyze_video, try_except, bind, ret, raise.
  cbv beta. fold prompt.
  destruct (truthy prompt) eqn:Ep;
    [change (negb true) with false|change (negb false) with true];
    cbv beta iota.
  - rewrite analyze_custom_spec. cbv zeta.
    destruct (gemini_generate (world st) video_path prompt) as [[e|text] w];
      [reflexivity|].
    destruct text; reflexivity.
  - reflexivity.
Qed.

Lemma split_with_ffmpeg_returns (input_path : str) (segments : list Segment)
  (output_dir : str) (st : State World) :
  exists files st',
    _split_video_with_ffmpeg input_path segments output_dir st
    = (inr files, st').
Proof. rewrite split_with_ffmpeg_spec. eauto. Qed.

(** The steps of [split_video], one after the other. *)
Lemma split_video_steps (input_video_path : str) (output_dir : option str)
  (st : State World) :
  let dir := match output_dir with None => default_dir | Some d => d end in
  let st1 := mkState (snd (mkdir (world st) dir))
                     (trace st ++ [EvMkdir dir]) in
  split_video input_video_path output_dir st
  = if path_exists (world st) input_video_path then
      match fst (mkdir (world st) dir) with
      | inl e => (inl (split_failed e), st1)
      | inr _ =>
          match _analyze_video (path_str input_video_path) st1 with
          | (inl e, st2) => (inl (split_failed e), st2)
          | (inr event_segments, st2) =>
              if is_nil event_segments then
                (inl (split_failed (VideoSplitterError NoEventDetected)), st2)
              else
                match _split_video_with_ffmpeg (path_str input_video_path)
                        event_segments (path_str dir) st2 with
                | (inl e, st3) => (inl (split_failed e), st3)
                | (inr files, st3) =>
                    match _save_segments_to_csv event_segments (path_str dir)
                            st3 with
                    | (inl e, st4) => (inl (split_failed e), st4)
                    | (inr csv, st4) =>
                        (inr (mkResult (path_str input_video_path)
                                (path_str dir) (length event_segments) files
                                csv event_segments), st4)
                    end
                end
          end
      end
    else (inl (split_failed (VideoSplitterError
                               (InputNotFound input_video_path))), st).
Proof.
  intros dir st1. unfold split_video, try_except, bind, ret, raise.
  destruct (path_exists (world st) input_video_path); [|reflexivity].
  change (negb true) with false. cbv beta iota zeta. fold dir. unfold st1.
  destruct (mkdir (world st) dir) as [[e|u] w1]; [reflexivity|].
  simpl fst. simpl snd.
  destruct (_analyze_video (path_str input_video_path) _)
    as [[e|segs] st2]; [reflexivity|].
  destruct (is_nil segs); [reflexivity|].
  destruct (_split_video_with_ffmpeg _ _ _ st2) as [[e|files] st3];
    [reflexivity|].
  destruct (_save_segments_to_csv _ _ st3) as [[e|csv] st4]; reflexivity.
Qed.

End StageFacts.

Section RunFacts.

Context {World : Type} `{C : Collaborators World}.

(** X10. The analysis step: without a prompt it fails before the analyzer is
    called; otherwise the analyzer is called once, a text that is not empty
    gives the records extracted from it, and an empty text or an exception
    of the analyzer is a failure; every failure is a [VideoSplitterError]. *)
Theorem analysis_outcomes (video_path : str) (st : State World) :
  let prompt := get_prompt (world st) in
  let called :=
    mkState (snd (gemini_generate (world st) video_path prompt))
            (trace st ++ [EvAnalyze video_path prompt]) in
  (prompt = [] ->
   _analyze_video video_path st
   = (inl (VideoSplitterError
             (AnalysisError (VideoSplitterError PromptNotFound))), st))
  /\ (prompt <> [] ->
      forall text,
        fst (gemini_generate (world st) video_path prompt) = inr text ->
        text <> [] ->
        _analyze_video video_path st
        = (inr (_parse_csv_response text), called))
  /\ (prompt <> [] ->
      fst (gemini_generate (world st) video_path prompt) = inr [] ->
      _analyze_video video_path st
      = (inl (VideoSplitterError
                (AnalysisFailed
                   (GeminiAPIError
                      (AnalysisFailed (GeminiAPIError EmptyResponse))))),
         called))
  /\ (prompt <> [] ->
      forall e,
        fst (gemini_generate (world st) video_path prompt) = inl e ->
        _analyze_video video_path st
        = (inl (VideoSplitterError
                  (AnalysisFailed (GeminiAPIError (AnalysisFailed e)))),
           called))
  /\ (forall e st', _analyze_video video_path st = (inl e, st') ->
                    exists m, e = VideoSplitterError m).
Proof.
  intros prompt called. pose proof (analyze_spec video_path st) as H.
  cbv zeta in H. fold prompt in H. fold called in H.
  split; [|split; [|split; [|split]]].
  - intros Ep. rewrite H, Ep. reflexivity.
  - intros Ep text Et Hne. rewrite H, Et.
    destruct prompt; [congruence|]. destruct text; [congruence|]. reflexivity.
  - intros Ep Et. rewrite H, Et. destruct prompt; [congruence|]. reflexivity.
  - intros Ep e Et. rewrite H, Et. destruct prompt; [congruence|]. reflexivity.
  - intros e st'. rewrite H. destruct (truthy prompt).
    + destruct (fst (gemini_generate (world st) video_path prompt)) as [e0|t].
      * intros [= <- _]. eauto.
      * destruct (truthy t); [discriminate|]. intros [= <- _]. eauto.
    + intros [= <- _]. eauto.
Qed.

Lemma analyze_trace (video_path : str) (st : State World) :
  trace (snd (_analyze_video video_path st)) = trace st
  \/ trace (snd (_analyze_video video_path st))
     = trace st ++ [EvAnalyze video_path (get_prompt (world st))].
Proof.
  rewrite analyze_spec. cbv zeta.
  destruct (truthy (get_prompt (world st))); [right|left]; reflexivity.
Qed.

(** X11. A run that fails raises the wrapping error, and it fails before
    anything is cut or written: the calls it made are none, the making of
    the directory alone, or that and one call of the analyzer. *)
Theorem failed_run_never_cuts (input_video_path : str)
  (output_dir : option str) (st st' : State World) (e : Exn) :
  split_video input_video_path output_dir st = (inl e, st') ->
  let dir := match output_dir with None => default_dir | Some d => d end in
  (exists cause, e = split_failed cause)
  /\ exists ext,
       trace st' = trace st ++ ext
       /\ filter is_cut ext = [] /\ filter is_write ext = []
       /\ (ext = [] \/ ext = [EvMkdir dir]
           \/ exists prompt,
                ext = [EvMkdir dir;
                       EvAnalyze (path_str input_video_path) prompt]).
Proof.
  intros H dir. rewrite split_video_steps in H. cbv zeta in H. fold dir in H.
  destruct (path_exists (world st) input_video_path).
  2:{ injection H as <- <-. split; [eauto|]. exists [].
      rewrite app_nil_r. repeat split; auto. }
  destruct (fst (mkdir (world st) dir)) as [e1|u].
  { injection H as <- <-. split; [eauto|]. exists [EvMkdir dir].
    repeat split; auto. }
  set (st1 := mkState (snd (mkdir (world st) dir))
                      (trace st ++ [EvMkdir dir])) in *.
  pose proof (analyze_trace (path_str input_video_path) st1) as Htr.
  destruct (_analyze_video (path_str input_video_path) st1)
    as [[e2|segs] st2] eqn:Ean; simpl snd in Htr.
  - injection H as <- <-. split; [eauto|].
    destruct Htr as [Htr|Htr]; rewrite Htr; simpl trace.
    + exists [EvMkdir dir]. repeat split; auto.
    + exists [EvMkdir dir;
              EvAnalyze (path_str input_video_path) (get_prompt (world st1))].
      rewrite <- app_assoc. repeat split; eauto.
  - destruct (is_nil segs).
    + injection H as <- <-. split; [eauto|].
      destruct Htr as [Htr|Htr]; rewrite Htr; simpl trace.
      * exists [EvMkdir dir]. repeat split; auto.
      * exists [EvMkdir dir;
                EvAnalyze (path_str input_video_path)
                  (get_prompt (world st1))].
        rewrite <- app_assoc. repeat split; eauto.
    + destruct (split_with_ffmpeg_returns (path_str input_video_path) segs
                  (path_str dir) st2) as (files & st3 & E3).
      rewrite E3 in H. rewrite save_spec in H. discriminate H.
Qed.







End RunFacts.

Lemma analysis_outcomes_witness :
  fst (_analyze_video (lit "in.mp4") sample_state) = inr sample_records
  /\ fst (_analyze_video (lit "in.mp4") sample_down_state)
     = inl (VideoSplitterError
              (AnalysisFailed
                 (GeminiAPIError
                    (AnalysisFailed (Raised (lit "ConnectionError")))))).
Proof.
  split.
  - destruct (analysis_outcomes (lit "in.mp4") sample_state)
      as (_ & H & _).
    rewrite (H ltac:(discriminate) sample_fenced eq_refl ltac:(discriminate)).
    vm_compute. reflexivity.
  - destruct (analysis_outcomes (lit "in.mp4") sample_down_state)
      as (_ & _ & _ & H & _).
    rewrite (H ltac:(discriminate) (Raised (lit "ConnectionError")) eq_refl).
    reflexivity.
Defined.

Lemma failed_run_never_cuts_witness :
  exists cause,
    fst (split_video (lit "in.mp4") None sample_prose_state)
    = inl (split_failed cause)
    /\ filter is_cut
         (trace (snd (split_video (lit "in.mp4") None sample_prose_state)))
       = [].
Proof.
  destruct (split_video (lit "in.mp4") None sample_prose_state)
    as [[e|r] st'] eqn:E.
  - destruct (failed_run_never_cuts (lit "in.mp4") None sample_prose_state
                st' e E) as ([cause ->] & ext & Ht & Hc & _).
    exists cause. split; [reflexivity|].
    simpl snd. rewrite Ht. simpl trace. exact Hc.
  - vm_compute in E. discriminate E.
Defined.



Section ManifestFacts.

Lemma digit_char_inj (a b : nat) :
  a < 10 -> b < 10 -> digit_char a = digit_char b -> a = b.
Proof.
  intros Ha Hb H. unfold digit_char in H.
  apply (f_equal nat_of_ascii) in H.
  rewrite !nat_ascii_embedding in H by lia. lia.
Qed.

Lemma mod10_lt (n : nat) : n mod 10 < 10.
Proof. apply Nat.mod_upper_bound. discriminate. Qed.

Lemma cons_eq_inv {A : Type} (a b : A) (l l' : list A) :
  a :: l = b :: l' -> a = b /\ l = l'.
Proof. intros H. now inversion H. Qed.

Lemma app_inj_length {A : Type} (a a' b b' : list A) :
  length a = length a' -> a ++ b = a' ++ b' -> a = a' /\ b = b'.
Proof.
  revert a'. induction a as [|x a IH]; intros [|y a'] Hl H;
    try discriminate Hl.
  - now split.
  - simpl in Hl. injection Hl as Hl.
    rewrite <- !app_comm_cons in H. apply cons_eq_inv in H as [-> H].
    destruct (IH a' Hl H) as [-> ->]. now split.
Qed.

Lemma two_digits_inj (a b : nat) :
  a < 100 -> b < 100 -> two_digits a = two_digits b -> a = b.
Proof.
  intros Ha Hb H. unfold two_digits in H.
  apply cons_eq_inv in H as [H1 H]. apply cons_eq_inv in H as [H0 _].
  apply digit_char_inj in H1; [|apply mod10_lt|apply mod10_lt].
  apply digit_char_inj in H0; [|apply mod10_lt|apply mod10_lt].
  assert (Ea : a / 10 < 10) by (apply Nat.Div0.div_lt_upper_bound; lia).
  assert (Eb : b / 10 < 10) by (apply Nat.Div0.div_lt_upper_bound; lia).
  rewrite !Nat.mod_small in H1 by assumption.
  rewrite (Nat.div_mod_eq a 10), (Nat.div_mod_eq b 10). lia.
Qed.

Lemma decimal_four (y : nat) :
  1000 <= y < 10 * 1000 ->
  decimal y = [digit_char (y / 10 / 10 / 10 mod 10);
               digit_char (y / 10 / 10 mod 10);
               digit_char (y / 10 mod 10); digit_char (y mod 10)].
Proof.
  intros [Hlo Hhi]. unfold decimal.
  replace (S y) with (S (S (S (S (y - 3))))) by lia.
  assert (H1 : (y / 10 =? 0) = false).
  { apply Nat.eqb_neq.
    pose proof (Nat.div_le_lower_bound y 10 100). lia. }
  assert (H2 : (y / 10 / 10 =? 0) = false).
  { apply Nat.eqb_neq. rewrite Nat.Div0.div_div.
    pose proof (Nat.div_le_lower_bound y (10 * 10) 10). lia. }
  assert (H3 : (y / 10 / 10 / 10 =? 0) = false).
  { apply Nat.eqb_neq. rewrite !Nat.Div0.div_div.
    pose proof (Nat.div_le_lower_bound y (10 * (10 * 10)) 1). lia. }
  assert (H4 : (y / 10 / 10 / 10 / 10 =? 0) = true).
  { apply Nat.eqb_eq. rewrite !Nat.Div0.div_div.
    apply Nat.div_small. lia. }
  rewrite decimal_digits_S, H1, decimal_digits_S, H2, decimal_digits_S, H3,
    decimal_digits_S, H4.
  reflexivity.
Qed.

Lemma decimal_four_inj (a b : nat) :
  1000 <= a < 10 * 1000 -> 1000 <= b < 10 * 1000 ->
  decimal a = decimal b -> a = b.
Proof.
  intros Ha Hb H. rewrite (decimal_four a Ha), (decimal_four b Hb) in H.
  apply cons_eq_inv in H as [H3 H]. apply cons_eq_inv in H as [H2 H].
  apply cons_eq_inv in H as [H1 H]. apply cons_eq_inv in H as [H0 _].
  apply digit_char_inj in H3; [|apply mod10_lt|apply mod10_lt].
  apply digit_char_inj in H2; [|apply mod10_lt|apply mod10_lt].
  apply digit_char_inj in H1; [|apply mod10_lt|apply mod10_lt].
  apply digit_char_inj in H0; [|apply mod10_lt|apply mod10_lt].
  assert (Ea : a / 10 / 10 / 10 < 10).
  { rewrite !Nat.Div0.div_div. apply Nat.Div0.div_lt_upper_bound. lia. }
  assert (Eb : b / 10 / 10 / 10 < 10).
  { rewrite !Nat.Div0.div_div. apply Nat.Div0.div_lt_upper_bound. lia. }
  rewrite !Nat.mod_small in H3 by assumption.
  pose proof (Nat.div_mod_eq a 10). pose proof (Nat.div_mod_eq b 10).
  pose proof (Nat.div_mod_eq (a / 10) 10).
  pose proof (Nat.div_mod_eq (b / 10) 10).
  pose proof (Nat.div_mod_eq (a / 10 / 10) 10).
  pose proof (Nat.div_mod_eq (b / 10 / 10) 10).
  lia.
Qed.

Lemma strftime_HMS_inj (t1 t2 : datetime) :
  four_two_digits t1 -> four_two_digits t2 ->
  strftime_Ymd_HMS t1 = strftime_Ymd_HMS t2 -> t1 = t2.
Proof.
  intros (Hy1 & Hm1 & Hd1 & Hh1 & Hmi1 & Hs1)
         (Hy2 & Hm2 & Hd2 & Hh2 & Hmi2 & Hs2) H.
  unfold strftime_Ymd_HMS, strftime_Ymd in H.
  rewrite <- !app_assoc in H.
  apply app_inj_length in H as [Ey H];
    [|now rewrite !decimal_four_digits].
  apply app_inj_length in H as [Em H]; [|reflexivity].
  apply app_inj_length in H as [Ed H]; [|reflexivity].
  apply app_inj_length in H as [_ H]; [|reflexivity].
  apply app_inj_length in H as [Eh H]; [|reflexivity].
  apply app_inj_length in H as [Emi Es]; [|reflexivity].
  apply decimal_four_inj in Ey; [|assumption|assumption].
  apply two_digits_inj in Em; [|assumption|assumption].
  apply two_digits_inj in Ed; [|assumption|assumption].
  apply two_digits_inj in Eh; [|assumption|assumption].
  apply two_digits_inj in Emi; [|assumption|assumption].
  apply two_digits_inj in Es; [|assumption|assumption].
  destruct t1, t2. simpl in *. congruence.
Qed.

End ManifestFacts.

Section ManifestClaims.

Context {World : Type} `{C : Collaborators World}.

(** X14. Saving the manifest never raises and calls the writer exactly once,
    with all the segments; the value is the path of the file when the writer
    returned and the empty string when it raised.  The name of the file is
    [video_segments_], the time stamp and [.csv]; for clocks with a year of
    four digits the stamp has 15 characters and two different clocks give
    two different names. *)
Theorem manifest_is_written_once (segments : list Segment) (output_dir : str)
  (st : State World) :
  let stamp := strftime_Ymd_HMS (now (world st)) in
  let name := lit "video_segments_" ++ stamp ++ lit ".csv" in
  let csv_path := path_join output_dir name in
  (exists csv,
     _save_segments_to_csv segments output_dir st
     = (inr csv,
        mkState (snd (write_csv (world st) csv_path segments))
                (trace st ++ [EvWriteCsv csv_path segments]))
     /\ (forall u, fst (write_csv (world st) csv_path segments) = inr u ->
                   csv = csv_path)
     /\ (forall e, fst (write_csv (world st) csv_path segments) = inl e ->
                   csv = []))
  /\ (four_two_digits (now (world st)) -> length stamp = 15)
  /\ (forall st2 : State World,
        four_two_digits (now (world st)) ->
        four_two_digits (now (world st2)) ->
        now (world st) <> now (world st2) ->
        name <> lit "video_segments_" ++ strftime_Ymd_HMS (now (world st2))
                ++ lit ".csv").
Proof.
  intros stamp name csv_path. split; [|split].
  - eexists. split; [apply save_spec|]. split.
    + intros u E. fold stamp. fold name. fold csv_path. now rewrite E.
    + intros e E. fold stamp. fold name. fold csv_path. now rewrite E.
  - intros (Hy & _). unfold stamp, strftime_Ymd_HMS, strftime_Ymd.
    rewrite !length_app, (decimal_four_digits _ Hy). reflexivity.
  - intros st2 H1 H2 Hne E. apply Hne. unfold name in E.
    apply app_inv_head in E. apply app_inv_tail in E.
    now apply strftime_HMS_inj.
Qed.

End ManifestClaims.

Lemma manifest_is_written_once_witness :
  length (strftime_Ymd_HMS (now (world sample_state))) = 15
  /\ fst (_save_segments_to_csv sample_records (lit "output") sample_state)
     = inr [].
Proof.
  destruct (manifest_is_written_once sample_records (lit "output")
              sample_state) as ((csv & E & _ & Hfail) & Hlen & _).
  split.
  - apply Hlen. vm_compute. repeat split; lia.
  - rewrite E. simpl fst. f_equal.
    apply (Hfail (Raised (lit "PermissionError"))). reflexivity.
Defined.

Section WindowFacts.

Lemma animate_running (ui : Ui) :
  ustartswith base_text (status_var ui) = true ->
  exists new_text,
    In new_text [base_text; base_text ++ [DOT]; base_text ++ [DOT; DOT];
                 base_text ++ [DOT; DOT; DOT]]
    /\ _animate_status_label ui
       = after 500 CbAnimate (set_status new_text ui).
Proof.
  intros H. unfold _animate_status_label. rewrite H.
  destruct (ustr_eqb (status_var ui) base_text).
  { exists (base_text ++ [DOT]). split; [simpl; tauto|reflexivity]. }
  destruct (ustr_eqb (status_var ui) (base_text ++ [DOT])).
  { exists (base_text ++ [DOT; DOT]). split; [simpl; tauto|reflexivity]. }
  destruct (ustr_eqb (status_var ui) (base_text ++ [DOT; DOT])).
  { exists (base_text ++ [DOT; DOT; DOT]). split; [simpl; tauto|reflexivity]. }
  exists base_text. split; [simpl; tauto|reflexivity].
Qed.

(** X15. The animation of the status label.  On a label that does not start
    with the base text it changes nothing and asks for no further call.  On
    one that does, it sets one of the base text with zero to three dots,
    which starts with the base text again, and asks to be called after
    500 ms: it never stops by itself.  From the base text the labels go
    through one, two and three dots and back in four steps.  The idle label
    and the label of the analysis stop it. *)
Theorem status_animation (ui : Ui) :
  (ustartswith base_text (status_var ui) = false ->
   _animate_status_label ui = ui)
  /\ (ustartswith base_text (status_var ui) = true ->
      let ui' := _animate_status_label ui in
      ustartswith base_text (status_var ui') = true
      /\ In (status_var ui')
            [base_text; base_text ++ [DOT]; base_text ++ [DOT; DOT];
             base_text ++ [DOT; DOT; DOT]]
      /\ timers ui' = timers ui ++ [(500, CbAnimate)]
      /\ file_path_var ui' = file_path_var ui
      /\ execute_enabled ui' = execute_enabled ui
      /\ dialogs ui' = dialogs ui /\ threads ui' = threads ui)
  /\ (status_var ui = base_text ->
      status_var (_animate_status_label ui) = base_text ++ [DOT]
      /\ status_var (Nat.iter 2 _animate_status_label ui)
         = base_text ++ [DOT; DOT]
      /\ status_var (Nat.iter 3 _animate_status_label ui)
         = base_text ++ [DOT; DOT; DOT]
      /\ status_var (Nat.iter 4 _animate_status_label ui) = base_text)
  /\ _animate_status_label (set_status text_idle ui) = set_status text_idle ui
  /\ _animate_status_label (set_status text_analyzing ui)
     = set_status text_analyzing ui.
Proof.
  split; [|split; [|split; [|split]]].
  - intros H. unfold _animate_status_label. now rewrite H.
  - intros H ui'. destruct (animate_running ui H) as (t & Hin & E).
    unfold ui'. rewrite E. simpl.
    split; [|split; [exact Hin|repeat split]].
    destruct Hin as [<-|[<-|[<-|[<-|[]]]]]; reflexivity.
  - intros H. destruct ui as [f s e d t n]. simpl in H. subst s.
    repeat split; reflexivity.
  - reflexivity.
  - reflexivity.
Qed.

Lemma status_animation_witness :
  status_var (_animate_status_label
                (mkUi (lit "in.mp4") (base_text ++ [DOT; DOT; DOT]) false []
                      [] 1)) = base_text
  /\ _animate_status_label (mkUi (lit "in.mp4") text_idle true [] [] 0)
     = mkUi (lit "in.mp4") text_idle true [] [] 0.
Proof.
  split.
  - destruct (status_animation
                (mkUi (lit "in.mp4") (base_text ++ [DOT; DOT; DOT]) false []
                      [] 1)) as (_ & H & _).
    destruct (H eq_refl) as (_ & Hin & _).
    vm_compute. reflexivity.
  - destruct (status_animation (mkUi (lit "in.mp4") text_idle true [] [] 0))
      as (H & _).
    apply H. reflexivity.
Defined.

(** X16. Pressing the execute button.  Without a file path it shows one
    error dialog and nothing else changes: no thread is started.  With one it
    disables the button, starts exactly one thread and asks for the
    animation; the first step of the animation runs at once, so the label
    left is the base text without dots. *)
Theorem execute_button (ui : Ui) :
  (file_path_var ui = [] ->
   _execute_processing ui = show DlgSelectFile ui)
  /\ (file_path_var ui <> [] ->
      _execute_processing ui
      = mkUi (file_path_var ui) base_text false (dialogs ui)
             (timers ui ++ [(500, CbAnimate)]) (S (threads ui))).
Proof.
  split; intros H; unfold _execute_processing.
  - now rewrite H.
  - destruct ui as [f s e d t n]. simpl in H.
    destruct f as [|c f]; [congruence|]. reflexivity.
Qed.

Lemma execute_button_witness :
  _execute_processing (mkUi [] text_idle true [] [] 0)
  = mkUi [] text_idle true [DlgSelectFile] [] 0
  /\ _execute_processing (mkUi (lit "in.mp4") text_idle true [] [] 0)
     = mkUi (lit "in.mp4") base_text false [] [(500, CbAnimate)] 1.
Proof.
  split.
  - destruct (execute_button (mkUi [] text_idle true [] [] 0)) as [H _].
    apply H. reflexivity.
  - destruct (execute_button (mkUi (lit "in.mp4") text_idle true [] [] 0))
      as [_ H].
    apply H. discriminate.
Defined.

End WindowFacts.

Section LineEndings.

Lemma crlf_cons (c : ascii) (t : str) :
  crlf (c :: t) = (if Ascii.eqb c LF then [CR; LF] else [c]) ++ crlf t.
Proof. reflexivity. Qed.

Lemma crlf_app (a b : str) : crlf (a ++ b) = crlf a ++ crlf b.
Proof. apply flat_map_app. Qed.

Lemma crlf_no_lf (s : str) :
  existsb (Ascii.eqb LF) s = false -> crlf s = s.
Proof.
  induction s as [|c s IH]; intros H; [reflexivity|].
  rewrite existsb_cons_eq in H. apply orb_false_iff in H as [Hc H].
  rewrite crlf_cons, Ascii.eqb_sym, Hc, (IH H). reflexivity.
Qed.

Lemma crlf_empty (s : str) : is_empty (crlf s) = is_empty s.
Proof.
  destruct s as [|c s]; [reflexivity|].
  rewrite crlf_cons. now destruct (Ascii.eqb c LF).
Qed.

Lemma lf_is_space (c : ascii) : Ascii.eqb c LF = true -> isspace c = true.
Proof. intros H. apply Ascii.eqb_eq in H. now subst c. Qed.

Lemma lstrip_crlf (x : str) : lstrip (crlf x) = crlf (lstrip x).
Proof.
  induction x as [|c t IH]; [reflexivity|].
  rewrite crlf_cons. destruct (Ascii.eqb c LF) eqn:E.
  - apply Ascii.eqb_eq in E. subst c. exact IH.
  - simpl app. simpl lstrip. destruct (isspace c); [exact IH|].
    now rewrite crlf_cons, E.
Qed.

Lemma rstrip_crlf (x : str) : rstrip (crlf x) = crlf (rstrip x).
Proof.
  induction x as [|c t IH]; [reflexivity|].
  rewrite crlf_cons. destruct (Ascii.eqb c LF) eqn:E.
  - apply Ascii.eqb_eq in E. subst c.
    change ([CR; LF] ++ crlf t) with (CR :: LF :: crlf t).
    change (rstrip (CR :: LF :: crlf t))
      with (let t' := (let t'' := rstrip (crlf t) in
                       if isspace LF && is_empty t'' then []
                       else LF :: t'') in
            if isspace CR && is_empty t' then [] else CR :: t').
    change (rstrip (LF :: t))
      with (if isspace LF && is_empty (rstrip t) then []
            else LF :: rstrip t).
    cbv zeta. rewrite IH, crlf_empty.
    change (isspace LF) with true. change (isspace CR) with true.
    destruct (is_empty (rstrip t)); reflexivity.
  - simpl app. simpl rstrip. rewrite IH, crlf_empty.
    destruct (isspace c && is_empty (rstrip t)); [reflexivity|].
    now rewrite crlf_cons, E.
Qed.

Lemma strip_crlf (x : str) : strip (crlf x) = crlf (strip x).
Proof. unfold strip. now rewrite rstrip_crlf, lstrip_crlf. Qed.

Lemma map_init_cons {A : Type} (g : A -> A) (x : A) (l : list A) :
  l <> [] -> map_init g (x :: l) = g x :: map_init g l.
Proof. destruct l; [congruence|reflexivity]. Qed.

Lemma split_cons (c a : ascii) (t : str) :
  split c (a :: t) =
  if Ascii.eqb a c then [] :: split c t
  else match split c t with
       | [] => [[a]]
       | f :: fs => (a :: f) :: fs
       end.
Proof. reflexivity. Qed.

Lemma split_crlf (y : str) :
  split LF (crlf y) = map_init (fun l => l ++ [CR]) (split LF y).
Proof.
  induction y as [|c t IH]; [reflexivity|].
  rewrite crlf_cons, (split_cons LF c t).
  destruct (Ascii.eqb c LF) eqn:E.
  - change ([CR; LF] ++ crlf t) with (CR :: LF :: crlf t).
    rewrite (split_cons LF CR). change (Ascii.eqb CR LF) with false.
    cbv iota. rewrite (split_cons LF LF), Ascii.eqb_refl, IH.
    rewrite map_init_cons by apply split_not_nil. reflexivity.
  - change ([c] ++ crlf t) with (c :: crlf t).
    rewrite (split_cons LF c), E, IH.
    destruct (split LF t) as [|f fs] eqn:Es; [now apply split_not_nil in Es|].
    destruct fs as [|f' fs]; reflexivity.
Qed.

Lemma strip_snoc_cr (l : str) : strip (l ++ [CR]) = strip l.
Proof. apply (strip_spaces [] l [CR]); reflexivity. Qed.

Lemma map_strip_init (ls : list str) :
  map strip (map_init (fun l => l ++ [CR]) ls) = map strip ls.
Proof.
  induction ls as [|l [|l' ls] IH]; try reflexivity.
  rewrite map_init_cons by discriminate.
  rewrite !(map_cons strip), strip_snoc_cr. f_equal. exact IH.
Qed.

(** The trimmed lines do not see the carriage returns. *)
Lemma trimmed_lines_crlf (x : str) :
  trimmed_lines_of (crlf x) = trimmed_lines_of x.
Proof.
  unfold trimmed_lines_of. now rewrite strip_crlf, split_crlf, map_strip_init.
Qed.

Lemma trimmed_lines_snoc_cr (x : str) :
  trimmed_lines_of (x ++ [CR]) = trimmed_lines_of x.
Proof. unfold trimmed_lines_of. now rewrite strip_snoc_cr. Qed.

Lemma trimmed_lines_strip (x : str) :
  trimmed_lines_of (strip x) = trimmed_lines_of x.
Proof. unfold trimmed_lines_of. now rewrite strip_idem. Qed.

Lemma filter_map_strip (ls : list str) :
  filter_map row_record (map strip ls) = filter_map row_record ls.
Proof.
  induction ls as [|l ls IH]; [reflexivity|].
  simpl. now rewrite row_of_stripped_line, IH.
Qed.

(** The records are a function of the trimmed lines of the candidate. *)
Lemma parse_by_trimmed_lines (response : str) :
  _parse_csv_response response =
  if length (trimmed_lines_of (csv_content response)) <? 2 then []
  else filter_map row_record (tl (trimmed_lines_of (csv_content response))).
Proof.
  unfold trimmed_lines_of. rewrite length_map.
  destruct (length (split LF (strip (csv_content response))) <? 2) eqn:E.
  - apply parse_short_table. now apply Nat.ltb_lt.
  - rewrite parse_table_rows by now apply Nat.ltb_ge.
    rewrite <- filter_map_strip.
    now destruct (split LF (strip (csv_content response))).
Qed.

End LineEndings.

Section LineEndingsInPattern.

Lemma startswith_crlf (p s : str) :
  existsb (Ascii.eqb LF) p = false ->
  existsb (Ascii.eqb CR) p = false ->
  startswith p (crlf s) = startswith p s.
Proof.
  revert s. induction p as [|a p IH]; intros s H H'; [reflexivity|].
  rewrite existsb_cons_eq in H. apply orb_false_iff in H as [Ha Hp].
  rewrite existsb_cons_eq in H'. apply orb_false_iff in H' as [Ha' Hp'].
  destruct s as [|c s]; [reflexivity|].
  rewrite crlf_cons. destruct (Ascii.eqb c LF) eqn:E.
  - apply Ascii.eqb_eq in E. subst c.
    change ([CR; LF] ++ crlf s) with (CR :: LF :: crlf s).
    rewrite !startswith_cons.
    rewrite Ascii.eqb_sym in Ha, Ha'. now rewrite Ha, Ha'.
  - change ([c] ++ crlf s) with (c :: crlf s).
    rewrite !startswith_cons. now rewrite (IH s Hp Hp').
Qed.

Lemma fence_close_cons (c : ascii) (t : str) :
  startswith Re.fence_close (c :: t) =
  Ascii.eqb LF c && startswith (lit "```") t.
Proof. reflexivity. Qed.

Lemma lazy_group_crlf (s : str) :
  Re.lazy_group (crlf s) = option_map with_cr (Re.lazy_group s).
Proof.
  induction s as [|c t IH]; [reflexivity|].
  rewrite (lazy_group_unfold (c :: t)), fence_close_cons, crlf_cons.
  destruct (Ascii.eqb c LF) eqn:E.
  - apply Ascii.eqb_eq in E. subst c. rewrite Ascii.eqb_refl, andb_true_l.
    change ([CR; LF] ++ crlf t) with (CR :: LF :: crlf t).
    rewrite lazy_group_unfold, fence_close_cons.
    change (Ascii.eqb LF CR) with false. rewrite andb_false_l.
    rewrite lazy_group_unfold, fence_close_cons, Ascii.eqb_refl, andb_true_l.
    rewrite startswith_crlf by reflexivity.
    destruct (startswith (lit "```") t); [reflexivity|].
    rewrite IH. now destruct (Re.lazy_group t).
  - rewrite Ascii.eqb_sym, E, andb_false_l.
    change ([c] ++ crlf t) with (c :: crlf t).
    rewrite lazy_group_unfold, fence_close_cons, Ascii.eqb_sym, E, andb_false_l.
    rewrite IH. destruct (Re.lazy_group t); [|reflexivity].
    unfold option_map, with_cr. now rewrite crlf_cons, E.
Qed.

Lemma after_open_crlf (s : str) :
  Re.after_open (crlf s) = option_map with_cr (Re.after_open s).
Proof.
  induction s as [|c t IH]; [reflexivity|].
  rewrite (after_open_unfold c t), crlf_cons.
  destruct (Ascii.eqb c LF) eqn:E.
  - rewrite (lf_is_space c E).
    change ([CR; LF] ++ crlf t) with (CR :: LF :: crlf t).
    rewrite (after_open_unfold CR), (after_open_unfold LF).
    change (isspace CR) with true. change (isspace LF) with true.
    change (Ascii.eqb CR LF) with false. change (Ascii.eqb LF LF) with true.
    cbv iota. rewrite IH, lazy_group_crlf.
    destruct (Re.after_open t); [reflexivity|].
    simpl option_map. now destruct (Re.lazy_group t).
  - change ([c] ++ crlf t) with (c :: crlf t).
    rewrite (after_open_unfold c), E, IH.
    destruct (isspace c); [|reflexivity].
    now destruct (Re.after_open t).
Qed.

Lemma match_here_crlf (s : str) :
  Re.match_here (crlf s) = option_map with_cr (Re.match_here s).
Proof.
  unfold Re.match_here. rewrite startswith_crlf by reflexivity.
  destruct (startswith Re.fence_open s) eqn:E; [|reflexivity].
  apply startswith_iff in E as [t ->].
  rewrite crlf_app, (crlf_no_lf Re.fence_open) by reflexivity.
  rewrite !skipn_app, !skipn_all, Nat.sub_diag. simpl app.
  simpl skipn. apply after_open_crlf.
Qed.

Lemma search_crlf (s : str) :
  Re.search_csv_block (crlf s) = option_map with_cr (Re.search_csv_block s).
Proof.
  induction s as [|c t IH]; [reflexivity|].
  rewrite (search_unfold (c :: t)).
  destruct (Ascii.eqb c LF) eqn:E.
  - assert (Hm : Re.match_here (c :: t) = None).
    { apply Ascii.eqb_eq in E. now subst c. }
    rewrite Hm, crlf_cons, E.
    change ([CR; LF] ++ crlf t) with (CR :: LF :: crlf t).
    rewrite search_unfold. change (Re.match_here (CR :: LF :: crlf t)) with (@None str).
    cbv iota. rewrite search_unfold.
    change (Re.match_here (LF :: crlf t)) with (@None str).
    cbv iota. exact IH.
  - rewrite search_unfold, match_here_crlf.
    destruct (Re.match_here (c :: t)); [reflexivity|].
    simpl option_map. cbv iota.
    rewrite crlf_cons, E. change ([c] ++ crlf t) with (c :: crlf t).
    exact IH.
Qed.

End LineEndingsInPattern.

Section LineEndingClaims.

(** X18. Line endings.  A response whose lines end in carriage return and
    line feed gives exactly the records of the same response with plain line
    feeds: the fenced block is found in the same place, the fallback scan
    captures the same table, and the rows have the same fields. *)
Theorem crlf_line_endings_are_harmless (response : str) :
  _parse_csv_response (crlf response) = _parse_csv_response response.
Proof.
  rewrite !parse_by_trimmed_lines.
  assert (H : trimmed_lines_of (csv_content (crlf response)) =
              trimmed_lines_of (csv_content response)).
  { destruct (Re.search_csv_block response) as [g|] eqn:E.
    - unfold csv_content. rewrite search_crlf, E. simpl option_map. cbv iota.
      rewrite !trimmed_lines_strip. unfold with_cr.
      now rewrite trimmed_lines_snoc_cr, trimmed_lines_crlf.
    - rewrite !fallback_is_capture; [| exact E | now rewrite search_crlf, E].
      fold (trimmed_lines_of (crlf response)).
      fold (trimmed_lines_of response).
      now rewrite trimmed_lines_crlf. }
  now rewrite H.
Qed.

End LineEndingClaims.

Section WorkerFacts.

Context {World : Type} `{C : Collaborators World}.

Variable import_service : World -> (Exn + unit) * World.
Variable new_splitter : World -> (Exn + unit) * World.
Variable path_name : str -> str.





End WorkerFacts.

